(** * LogGrid: a shallow embedding of [src/logGrid.js]

    The driver-log grid keeps a JavaScript array [times] of 96 quarter-hour
    slots, turns mouse positions into (slot, duty) pairs, accumulates a drag
    range while the button is held and writes it into [times] on release.

    The embedding follows the source function by function.  JavaScript numbers
    that come from pixel arithmetic are binary64 floats ([PrimFloat]); numbers
    that have been through [| 0] are integers and are kept in [Z].  The hour
    totals divide a match count by four and are kept in [Q] (the quotient of
    an integer below 2^53 by 4 is exact in binary64, see [quarter_exact]).
    The canvas drawing routines only paint; they read the state and never
    change it, so they appear as commands that leave the state alone. *)

From Stdlib Require Import ZArith QArith Qround Floats String Ascii List Lia.
From Stdlib Require Import DecimalString.
From stdpp Require Import gmap strings list.

Local Open Scope Z_scope.

(** ** JavaScript numbers *)

Module Num.

(** [x | 0]: ECMAScript's ToInt32.  NaN, the infinities and the zeros give 0;
    a finite number is truncated toward zero, reduced modulo 2^32 and read
    as a signed 32-bit integer. *)
Definition wrap32 (z : Z) : Z := (z + 2 ^ 31) mod 2 ^ 32 - 2 ^ 31.

Definition magnitude (m : positive) (e : Z) : Z := Z.shiftl (Z.pos m) e.

Definition truncSF (f : spec_float) : Z :=
  match f with
  | S754_finite s m e => if s then - magnitude m e else magnitude m e
  | _ => 0
  end.

Definition ToInt32 (f : float) : Z := wrap32 (truncSF (Prim2SF f)).

(** The rational a finite float stands for (0 for the other floats). *)
Definition QofSF (f : spec_float) : Q :=
  match f with
  | S754_finite s m e =>
      let n := if s then Z.neg m else Z.pos m in
      if 0 <=? e then inject_Z (n * 2 ^ e) else Qmake n (Z.to_pos (2 ^ (- e)))
  | _ => 0%Q
  end.

Definition QofFloat (f : float) : Q := QofSF (Prim2SF f).

(** Rounding toward zero on the rationals. *)
Definition Qtrunc (q : Q) : Z := if Qle_bool 0 q then Qfloor q else Qceiling q.

(** [v || 0] for a property that holds a number or is undefined. *)
Definition or0 (v : option float) : float :=
  match v with
  | Some f => if (is_nan f || is_zero f)%bool then 0%float else f
  | None => 0%float
  end.

End Num.

(** ** The part of the DOM the grid reads *)

#[warnings="-register-all"]
Inductive node : Type :=
  Node (offsetTop offsetLeft scrollTop scrollLeft : option float)
       (clientWidth clientHeight : float)
       (offsetParent parentNode : option node).

Definition offsetTop (n : node) := let 'Node t _ _ _ _ _ _ _ := n in t.
Definition offsetLeft (n : node) := let 'Node _ l _ _ _ _ _ _ := n in l.
Definition scrollTop (n : node) := let 'Node _ _ t _ _ _ _ _ := n in t.
Definition scrollLeft (n : node) := let 'Node _ _ _ l _ _ _ _ := n in l.
Definition clientWidth (n : node) := let 'Node _ _ _ _ w _ _ _ := n in w.
Definition clientHeight (n : node) := let 'Node _ _ _ _ _ h _ _ := n in h.
Definition offsetParent (n : node) := let 'Node _ _ _ _ _ _ p _ := n in p.
Definition parentNode (n : node) := let 'Node _ _ _ _ _ _ _ p := n in p.

(** [getOffset]: the do-while loop, with [top] and [left] as accumulators;
    the result is the array [[left, top]]. *)
Fixpoint getOffset_loop (element : node) (top left : float) : float * float :=
  let 'Node t l _ _ _ _ p _ := element in
  let top := (top + Num.or0 t)%float in
  let left := (left + Num.or0 l)%float in
  match p with
  | Some element' => getOffset_loop element' top left
  | None => (left, top)
  end.

Definition getOffset (element : node) : float * float :=
  getOffset_loop element 0%float 0%float.

Fixpoint getScrollOffset_loop (element : node) (top left : float) : float * float :=
  let 'Node _ _ t l _ _ _ p := element in
  let top := (top + Num.or0 t)%float in
  let left := (left + Num.or0 l)%float in
  match p with
  | Some element' => getScrollOffset_loop element' top left
  | None => (left, top)
  end.

Definition getScrollOffset (element : node) : float * float :=
  getScrollOffset_loop element 0%float 0%float.

(** A mouse event as the handlers see it: the pointer position, and the
    container and grid canvas as they are laid out when it is delivered. *)
Record MouseEvent := {
  clientX : float;
  clientY : float;
  container : node;
  gridCanvas : node
}.

Record world_t := { width : float; height : float }.

(** The object [{ min: x, duty: y }] returned by [getMouseTime]. *)
Record mouseTime := { min : Z; mduty : Z }.

(** The pointer position relative to the surface: [mx] and [my] of
    [getMouseTime]. *)
Definition mouseX (e : MouseEvent) : float :=
  let offset := getOffset (container e) in
  let scroll := getScrollOffset (gridCanvas e) in
  (clientX e - (fst offset - fst scroll))%float.

Definition mouseY (e : MouseEvent) : float :=
  let offset := getOffset (container e) in
  let scroll := getScrollOffset (gridCanvas e) in
  (clientY e - (snd offset + 1) + snd scroll)%float.

(** The two quotients that [getMouseTime] truncates. *)
Definition pixelToSlot (w : world_t) (mx my : float) : mouseTime :=
  let timeIncrmnt := (width w / 96)%float in
  let dutyIncrmnt := (height w / 4)%float in
  let x := Num.ToInt32 (mx / timeIncrmnt)%float in
  let y := Num.ToInt32 (my / dutyIncrmnt)%float + 1 in
  {| min := x; mduty := y |}.

Definition getMouseTime (w : world_t) (e : MouseEvent) : mouseTime :=
  pixelToSlot w (mouseX e) (mouseY e).

(** ** The [times] array *)

(** What a slot of [times] can hold: a one-character string (after
    [split('')]), a number (the [1] pushed by the default, or a duty written
    by a drag), or nothing (a hole left by a write past the end, or an
    undefined duty). *)
Inductive jsval : Type :=
| JUndef
| JNum (n : Z)
| JChr (c : ascii).

(** A JavaScript array: the elements at indices [0 .. length-1], and the
    properties that a write at a negative index creates (their names are not
    array indices, so [length], [join] and the indexed loops never see them). *)
Record jsArray := {
  elems : list jsval;
  props : gmap Z jsval
}.

(** [a[i] = v] for an integer [i] below 2^32 - 1, as every index the grid
    writes at is: the indices come out of [| 0] or are 96.  (From 2^32 - 1
    on JavaScript would create a plain property and leave the length.) *)
Definition array_put (i : Z) (v : jsval) (a : jsArray) : jsArray :=
  if i <? 0 then
    {| elems := elems a; props := <[i := v]> (props a) |}
  else if i <? Z.of_nat (length (elems a)) then
    {| elems := <[Z.to_nat i := v]> (elems a); props := props a |}
  else
    {| elems := elems a ++ replicate (Z.to_nat i - length (elems a)) JUndef ++ [v];
       props := props a |}.

(** [a[i]] *)
Definition array_get (i : Z) (a : jsArray) : jsval :=
  if i <? 0 then default JUndef (props a !! i)
  else default JUndef (elems a !! Z.to_nat i).

(** Number-to-string conversion of an integer. *)
Definition string_of_Z (n : Z) : string := NilZero.string_of_int (Z.to_int n).

(** What [join] prints for one element. *)
Definition jsval_to_string (v : jsval) : string :=
  match v with
  | JUndef => EmptyString
  | JNum n => string_of_Z n
  | JChr c => String c EmptyString
  end.

(** [a.join('')] *)
Definition join (a : jsArray) : string :=
  fold_right (fun v acc => jsval_to_string v +:+ acc) EmptyString (elems a).

(** [s.split('')] *)
Definition split_chars (s : string) : jsArray :=
  {| elems := JChr <$> list_ascii_of_string s; props := ∅ |}.

(** [constructTimesArray]: [None] is an absent (undefined) argument. *)
Definition constructTimesArray (str : option string) : jsArray :=
  let gridStr := match str with Some s => s | None => EmptyString end in
  if (negb (String.eqb gridStr EmptyString) && (String.length gridStr =? 96)%nat)%bool
  then split_chars gridStr
  else {| elems := replicate 96 (JNum 1); props := ∅ |}.

(** [toString] and [getHourTotals] only look at [times]. *)
Definition toString (times : jsArray) : string := join times.

(** [str.match(new RegExp(pat, 'g'))] for a pattern without metacharacters
    (here the decimal digits of a duty number): all non-overlapping
    occurrences of [pat], scanning from the left; [skip] counts the characters
    of the last match still to be passed over.  [null] is [None]. *)
Fixpoint match_from (pat : string) (skip : nat) (s : string) : list string :=
  match s with
  | EmptyString => []
  | String _ s' =>
      match skip with
      | S k => match_from pat k s'
      | O =>
          if String.prefix pat s
          then pat :: match_from pat (String.length pat - 1) s'
          else match_from pat 0 s'
      end
  end.

Definition match_g (pat s : string) : option (list string) :=
  match match_from pat 0 s with
  | [] => None
  | finds => Some finds
  end.

Definition types : list string :=
  ["off"; "sleeper"; "drive"; "onduty"]%string.

(** The loop of [getHourTotals], from index [i] over the remaining type names. *)
Fixpoint totals_loop (str : string) (i : Z) (names : list string)
    (totals : gmap string Q) : gmap string Q :=
  match names with
  | [] => totals
  | name :: names' =>
      let duty := i + 1 in
      let finds := match_g (string_of_Z duty) str in
      let hours :=
        match finds with
        | Some f => (inject_Z (Z.of_nat (length f)) / 4)%Q
        | None => 0%Q
        end in
      totals_loop str (i + 1) names' (<[name := hours]> totals)
  end.

(** [getHourTotals]: [None] is the [false] returned for an empty array. *)
Definition getHourTotals (times : jsArray) : option (gmap string Q) :=
  if (length (elems times) =? 0)%nat then None
  else Some (totals_loop (toString times) 0 types ∅).

(** ** The grid object *)

Record dragRange := { start : Z; end_ : Z }.

(** [this.drag]: the empty object [{}] has neither property. *)
Record dragState := { range : option dragRange; duty : option Z }.

Definition no_drag : dragState := {| range := None; duty := None |}.

Inductive eventName := mousemove | mousedown | mouseup | mouseout.

#[global] Instance eventName_eq_dec : EqDecision eventName.
Proof. solve_decision. Defined.

Record Grid := {
  callBack_calls : nat;        (* how often [this.callBack] has been called *)
  times : jsArray;
  readOnly : bool;
  world : world_t;
  mouseDown : bool;
  drag : dragState;
  observers : list eventName   (* the events [dutyCanvas] has a listener for *)
}.

(** ** Commands: state passing with exceptions *)

Inductive jsError := TypeError.

Inductive completion (A : Type) :=
| Normal (a : A)
| Throw (e : jsError).
Arguments Normal {A} a.
Arguments Throw {A} e.

Definition js (A : Type) : Type := Grid -> completion A * Grid.

Definition ret {A} (a : A) : js A := fun g => (Normal a, g).

Definition bind {A B} (c : js A) (k : A -> js B) : js B :=
  fun g =>
    match c g with
    | (Normal a, g') => k a g'
    | (Throw e, g') => (Throw e, g')
    end.

Definition throw {A} (e : jsError) : js A := fun g => (Throw e, g).
Definition get : js Grid := fun g => (Normal g, g).
Definition put (g : Grid) : js unit := fun _ => (Normal tt, g).

Declare Scope js_scope.
Delimit Scope js_scope with js.
Notation "x <- c ;; k" := (bind c (fun x => k))
  (at level 100, c at next level, right associativity) : js_scope.
Notation "c ;; k" := (bind c (fun _ => k))
  (at level 100, right associativity) : js_scope.
Local Open Scope js_scope.

Definition set_mouseDown (b : bool) : js unit :=
  g <- get ;;
  put {| callBack_calls := callBack_calls g; times := times g;
         readOnly := readOnly g; world := world g; mouseDown := b;
         drag := drag g; observers := observers g |}.

Definition set_drag (d : dragState) : js unit :=
  g <- get ;;
  put {| callBack_calls := callBack_calls g; times := times g;
         readOnly := readOnly g; world := world g; mouseDown := mouseDown g;
         drag := d; observers := observers g |}.

Definition set_times (t : jsArray) : js unit :=
  g <- get ;;
  put {| callBack_calls := callBack_calls g; times := t;
         readOnly := readOnly g; world := world g; mouseDown := mouseDown g;
         drag := drag g; observers := observers g |}.

(** [this.callBack()]: the caller's function is opaque to the grid; the
    state records that it has been called once more. *)
Definition callBack : js unit :=
  g <- get ;;
  put {| callBack_calls := S (callBack_calls g); times := times g;
         readOnly := readOnly g; world := world g; mouseDown := mouseDown g;
         drag := drag g; observers := observers g |}.

(** The painting routines change nothing in the grid object. *)
Definition drawLogGrid : js unit := ret tt.
Definition drawDutyStatusLine : js unit := ret tt.
Definition clearDutyLines : js unit := ret tt.

(** ** The handlers *)

(** [updateDrag]: keep the range's start if there is a range, open one at
    [m.min] otherwise; then set its end and the duty. *)
Definition updateDrag (m : mouseTime) : js unit :=
  g <- get ;;
  let start0 :=
    match range (drag g) with
    | Some r => start r
    | None => min m
    end in
  set_drag {| range := Some {| start := start0; end_ := min m |};
              duty := Some (mduty m) |}.

(** The [for] loop of [saveDrag]: [n] iterations are left, the next index is [i]. *)
Fixpoint saveDrag_loop (n : nat) (i : Z) (v : jsval) (t : jsArray) : jsArray :=
  match n with
  | O => t
  | S n' => saveDrag_loop n' (i + 1) v (array_put i v t)
  end.

(** [saveDrag]: reading [r.start] of an undefined [r] is a TypeError. *)
Definition saveDrag : js unit :=
  g <- get ;;
  match range (drag g) with
  | None => throw TypeError
  | Some r =>
      let v := match duty (drag g) with Some d => JNum d | None => JUndef end in
      set_times (saveDrag_loop (Z.to_nat (end_ r - start r)) (start r) v (times g)) ;;
      set_drag no_drag
  end.

Definition mousedownHandler (e : MouseEvent) : js unit :=
  set_mouseDown true ;;
  g <- get ;;
  updateDrag (getMouseTime (world g) e).

Definition mouseupHandler : js unit :=
  set_mouseDown false ;;
  saveDrag ;;
  clearDutyLines ;;
  drawDutyStatusLine ;;
  g <- get ;;
  if negb (readOnly g) then callBack else ret tt.

Definition mousemoveHandler (e : MouseEvent) : js unit :=
  g <- get ;;
  if negb (mouseDown g) then ret tt
  else
    updateDrag (getMouseTime (world g) e) ;;
    clearDutyLines ;;
    drawDutyStatusLine.

Definition mouseoutHandler : js unit :=
  g <- get ;;
  match range (drag g) with
  | Some r =>
      if end_ r >? 93 then
        set_drag {| range := Some {| start := start r; end_ := 96 |};
                    duty := duty (drag g) |} ;;
        mouseupHandler
      else ret tt
  | None => ret tt
  end.

(** ** Construction *)

Definition set_observers (l : list eventName) : js unit :=
  g <- get ;;
  put {| callBack_calls := callBack_calls g; times := times g;
         readOnly := readOnly g; world := world g; mouseDown := mouseDown g;
         drag := drag g; observers := l |}.

Definition constructCanvas : js unit :=
  g <- get ;;
  (if negb (readOnly g)
   then set_observers [mousemove; mousedown; mouseup; mouseout]
   else ret tt) ;;
  drawLogGrid ;;
  drawDutyStatusLine ;;
  if negb (readOnly g) then callBack else ret tt.

(** The [params] object; an absent property is [None].  ([onUpdate] is the
    caller's function behind [callBack].) *)
Record params_t := {
  p_gridStr : option string;
  p_readOnly : option bool
}.

(** The constructor.  [params || {}], [params.gridStr || ''] and
    [params.readOnly || false] are written out. *)
Definition grid (container : node) (params : option params_t) : Grid :=
  let params := default {| p_gridStr := None; p_readOnly := None |} params in
  let gridStr :=
    match p_gridStr params with
    | Some s => s
    | None => EmptyString
    end in
  snd (constructCanvas
         {| callBack_calls := 0;
            times := constructTimesArray (Some gridStr);
            readOnly := default false (p_readOnly params);
            world := {| width := clientWidth container;
                        height := clientHeight container |};
            mouseDown := false;
            drag := no_drag;
            observers := [] |}).

(** ** Event delivery *)

Record event := { name : eventName; mouse : MouseEvent }.

(** [self[evt + 'Handler'](e)] *)
Definition handler (evt : eventName) (e : MouseEvent) : js unit :=
  match evt with
  | mousemove => mousemoveHandler e
  | mousedown => mousedownHandler e
  | mouseup => mouseupHandler
  | mouseout => mouseoutHandler
  end.

(** An event reaches a handler only through a listener that
    [constructCanvas] has attached. *)
Definition dispatch (ev : event) : js unit :=
  g <- get ;;
  if bool_decide (name ev ∈ observers g) then handler (name ev) (mouse ev)
  else ret tt.

(** The host delivers events one after another; an exception that escapes a
    listener is reported by the host and the next event is delivered to the
    grid as the listener left it. *)
Fixpoint deliver (evs : list event) (g : Grid) : list (completion unit) * Grid :=
  match evs with
  | [] => ([], g)
  | ev :: evs' =>
      let '(c, g') := dispatch ev g in
      let '(cs, g'') := deliver evs' g' in
      (c :: cs, g'')
  end.

Definition run (evs : list event) (g : Grid) : Grid := snd (deliver evs g).

(** ** Painting the duty status line *)

(** What [drawDutyStatusLine] asks of the 2d context of the duty canvas, in
    order: the assignments to its properties and the calls of its methods.
    (The handlers above keep the painting routines as commands without
    effect on the grid; here is what they paint.) *)
Module Canvas.

Inductive call : Type :=
| set_lineWidth (w : float)
| set_strokeStyle (c : string)
| beginPath
| moveTo (x y : float)
| lineTo (x y : float)
| closePath
| stroke.

(** An integer as a number.  The integers here are slot indices and duties,
    far below 2^53, where the conversion is exact. *)
Definition float_of_Z (n : Z) : float :=
  match n with
  | Z0 => 0%float
  | Zpos _ => PrimFloat.of_uint63 (Uint63.of_Z n)
  | Zneg p => (- PrimFloat.of_uint63 (Uint63.of_Z (Zpos p)))%float
  end.

(** The code units below 256 that count as white space or line terminators:
    TAB, LF, VT, FF, CR, SP and NBSP. *)
Definition is_white (n : Z) : bool :=
  ((9 <=? n) && (n <=? 13) || (n =? 32) || (n =? 160))%bool.

(** The number a one-character string converts to, [None] for NaN: a
    decimal digit gives its value, white space gives 0. *)
Definition number_of_char (c : ascii) : option Z :=
  let n := Z.of_nat (nat_of_ascii c) in
  if ((48 <=? n) && (n <=? 57))%bool then Some (n - 48)
  else if is_white n then Some 0
  else None.

(** ToNumber, as [*] applies it to a slot value. *)
Definition ToNumber (v : jsval) : float :=
  match v with
  | JUndef => nan
  | JNum n => float_of_Z n
  | JChr c =>
      match number_of_char c with
      | Some n => float_of_Z n
      | None => nan
      end
  end.

(** ToBoolean: [undefined], 0 and the empty string are falsy; a
    one-character string is not empty. *)
Definition ToBoolean (v : jsval) : bool :=
  match v with
  | JUndef => false
  | JNum n => negb (n =? 0)
  | JChr _ => true
  end.

(** [a != b]: two numbers or two strings are compared as they are, a
    number and a string after converting the string, and [undefined] equals
    only itself. *)
Definition loose_neq (a b : jsval) : bool :=
  match a, b with
  | JUndef, JUndef => false
  | JNum n, JNum m => negb (n =? m)
  | JChr c, JChr c' => negb (Ascii.eqb c c')
  | JNum n, JChr c | JChr c, JNum n =>
      match number_of_char c with
      | Some m => negb (n =? m)
      | None => true
      end
  | _, _ => true
  end.

(** [this.dutyColor], set by the constructor from [readOnly]. *)
Definition dutyColor (g : Grid) : string :=
  if readOnly g then "black"%string else "blue"%string.

(** The first loop of [drawDutyStatusLine], at index [i] with the elements
    from [i] on still to draw; [lastDuty] is [None] while it is [false]. *)
Fixpoint dutyLine_loop (hourInc dutyInc : float) (i : Z)
    (lastDuty : option jsval) (l : list jsval) : list call :=
  match l with
  | [] => []
  | val :: l' =>
      let y := (dutyInc * ToNumber val - dutyInc / 2)%float in
      let x := (float_of_Z i * hourInc)%float in
      let connector :=
        match lastDuty with
        | Some last =>
            if (ToBoolean last && loose_neq last val)%bool then
              let py := (dutyInc * ToNumber last - dutyInc / 2 + 0.5)%float in
              [moveTo x py; lineTo x y]
            else []
        | None => []
        end in
      connector
        ++ moveTo x y :: lineTo (x + hourInc)%float y
        :: dutyLine_loop hourInc dutyInc (i + 1) (Some val) l'
  end.

(** The loop over the drag range: [n] iterations are left, the next index
    is [i]; [duty] is [this.drag.duty]. *)
Fixpoint dragLine_loop (hourInc dutyInc : float) (duty : jsval)
    (n : nat) (i : Z) : list call :=
  match n with
  | O => []
  | S n' =>
      let y := (dutyInc * ToNumber duty - dutyInc / 2)%float in
      let x := (float_of_Z i * hourInc)%float in
      moveTo x y :: lineTo (x + hourInc)%float y
        :: dragLine_loop hourInc dutyInc duty n' (i + 1)
  end.

Definition drawDutyStatusLine (g : Grid) : list call :=
  let hourInc := (width (world g) / 96)%float in
  let dutyInc := (height (world g) / 4)%float in
  [set_lineWidth 2%float; beginPath; set_strokeStyle (dutyColor g)]
    ++ dutyLine_loop hourInc dutyInc 0 None (elems (times g))
    ++ [closePath; stroke]
    ++ match range (drag g) with
       | Some r =>
           [beginPath; set_strokeStyle "red"%string]
             ++ dragLine_loop hourInc dutyInc
                  (match duty (drag g) with Some d => JNum d | None => JUndef end)
                  (Z.to_nat (end_ r - start r)) (start r)
             ++ [closePath; stroke]
       | None => []
       end.

End Canvas.

(** * The vocabulary of the properties *)

(** ** Duty statuses and slot sequences *)

Inductive DutyStatus := OffDuty | SleeperBerth | Driving | OnDuty.

#[global] Instance DutyStatus_eq_dec : EqDecision DutyStatus.
Proof. solve_decision. Defined.

Definition ordinal (d : DutyStatus) : Z :=
  match d with
  | OffDuty => 1
  | SleeperBerth => 2
  | Driving => 3
  | OnDuty => 4
  end.

(** The digit that encodes a status. *)
Definition digit (d : DutyStatus) : ascii :=
  match d with
  | OffDuty => "1"
  | SleeperBerth => "2"
  | Driving => "3"
  | OnDuty => "4"
  end%char.

(** The name [getHourTotals] files a status under. *)
Definition type_name (d : DutyStatus) : string :=
  match d with
  | OffDuty => "off"
  | SleeperBerth => "sleeper"
  | Driving => "drive"
  | OnDuty => "onduty"
  end.

Definition status_of_ordinal (n : Z) : option DutyStatus :=
  if n =? 1 then Some OffDuty
  else if n =? 2 then Some SleeperBerth
  else if n =? 3 then Some Driving
  else if n =? 4 then Some OnDuty
  else None.

Definition status_of_digit (c : ascii) : option DutyStatus :=
  if Ascii.eqb c "1" then Some OffDuty
  else if Ascii.eqb c "2" then Some SleeperBerth
  else if Ascii.eqb c "3" then Some Driving
  else if Ascii.eqb c "4" then Some OnDuty
  else None.

(** The status a slot value stands for: the ordinal as a number, or its digit
    as a one-character string. *)
Definition status_of (v : jsval) : option DutyStatus :=
  match v with
  | JUndef => None
  | JNum n => status_of_ordinal n
  | JChr c => status_of_digit c
  end.

Definition statuses (t : jsArray) : list (option DutyStatus) :=
  status_of <$> elems t.

Definition valid_slots (l : list jsval) : Prop :=
  Forall (fun v => is_Some (status_of v)) l.

(** A SlotSequence: exactly 96 slots, each a valid status. *)
Definition SlotSequence (t : jsArray) : Prop :=
  length (elems t) = 96%nat /\ valid_slots (elems t).

Definition default_times : jsArray :=
  {| elems := replicate 96 (JNum 1); props := ∅ |}.

Definition digits_1_4 (s : string) : Prop :=
  Forall (fun c => is_Some (status_of_digit c)) (list_ascii_of_string s).

(** Overwriting the slots [a .. b-1] of a list. *)
Definition splice (a b : nat) (v : jsval) (l : list jsval) : list jsval :=
  take a l ++ replicate (b - a) v ++ drop b l.

(** ** Hour totals *)

(** The entry of [getHourTotals] for a status (0 when there is no object or
    no such entry). *)
Definition hours (k : DutyStatus) (t : jsArray) : Q :=
  default 0%Q (getHourTotals t ≫= fun totals => totals !! type_name k).

(** How many slots of a list hold status [k]. *)
Fixpoint slots_with (k : DutyStatus) (l : list jsval) : nat :=
  match l with
  | [] => 0
  | v :: l' =>
      (if bool_decide (status_of v = Some k) then 1 else 0) + slots_with k l'
  end.

Fixpoint count_char (c : ascii) (s : string) : nat :=
  match s with
  | EmptyString => 0
  | String c' s' => (if Ascii.eqb c c' then 1 else 0) + count_char c s'
  end.

Definition quarter (n : nat) : Q := (inject_Z (Z.of_nat n) / 4)%Q.

(** ** States and events *)

(** An editable grid after construction: not read-only, all four listeners
    attached. *)
Definition editable (g : Grid) : Prop :=
  readOnly g = false /\ observers g = [mousemove; mousedown; mouseup; mouseout].

(** An event commits an edit when its handler runs [saveDrag] to the end:
    a mouseup while there is a drag range, or a mouseout while the range
    ends beyond slot 93. *)
Definition commits (ev : event) (g : Grid) : bool :=
  match name ev, range (drag g) with
  | mouseup, Some _ => true
  | mouseout, Some r => end_ r >? 93
  | _, _ => false
  end.

Definition pointer_down (e : MouseEvent) : event := {| name := mousedown; mouse := e |}.
Definition pointer_move (e : MouseEvent) : event := {| name := mousemove; mouse := e |}.
Definition pointer_up (e : MouseEvent) : event := {| name := mouseup; mouse := e |}.

(** ** A sample page *)

(** A container 960 pixels wide and 400 high at the page origin, nothing
    scrolled: a slot is 10 pixels wide, a duty band 100 pixels high. *)
Definition surface : node :=
  Node (Some 0%float) (Some 0%float) (Some 0%float) (Some 0%float)
       960%float 400%float None None.

Definition pointer (evt : eventName) (x y : float) : event :=
  {| name := evt;
     mouse := {| clientX := x; clientY := y;
                 container := surface; gridCanvas := surface |} |}.

(** A fresh editable grid on it. *)
Definition fresh : Grid := grid surface None.

Ltac slot_sequence :=
  split; [vm_compute; reflexivity
         | apply (bool_decide_unpack _); vm_compute; exact I].

(** ** Unvalidated input, placed events, the state while dragging *)

(** How many characters of a string are not one of the digits 1 to 4. *)
Fixpoint count_other (s : string) : nat :=
  match s with
  | EmptyString => 0
  | String c s' =>
      (match status_of_digit c with Some _ => 0 | None => 1 end) + count_other s'
  end.

(** The drag state is all there or all absent, and it is there exactly
    while the button counts as held. *)
Definition drag_consistent (g : Grid) : Prop :=
  (mouseDown g = true <-> is_Some (range (drag g))) /\
  (is_Some (range (drag g)) <-> is_Some (duty (drag g))).

(** The pointer is over the surface: the two quotients of [getMouseTime]
    lie in [0, 96) and [0, 4). *)
Definition in_surface (w : world_t) (e : MouseEvent) : Prop :=
  let qx := Num.QofFloat (mouseX e / (width w / 96))%float in
  let qy := Num.QofFloat (mouseY e / (height w / 4))%float in
  (0 <= qx)%Q /\ (qx < 96)%Q /\ (0 <= qy)%Q /\ (qy < 4)%Q.

(** Only mousedown and mousemove look at the pointer position. *)
Definition well_placed (w : world_t) (ev : event) : Prop :=
  match name ev with
  | mousedown | mousemove => in_surface w (mouse ev)
  | mouseup | mouseout => True
  end.

(** A pending drag that a commit can take without leaving the slot
    sequence: it ends at or before slot 96 and carries a duty from 1 to 4. *)
Definition drag_in_range (g : Grid) : Prop :=
  forall r : dragRange,
    range (drag g) = Some r ->
    end_ r <= 96 /\ exists d : Z, duty (drag g) = Some d /\ 1 <= d <= 4.

(** The grid [g] with the button held and a drag from slot [s] to the slot
    and duty of [m]. *)
Definition dragging_from (g : Grid) (s : Z) (m : mouseTime) : Grid :=
  {| callBack_calls := callBack_calls g; times := times g;
     readOnly := readOnly g; world := world g; mouseDown := true;
     drag := {| range := Some {| start := s; end_ := min m |};
                duty := Some (mduty m) |};
     observers := observers g |}.

(** ** What is painted *)

(** The line segments of a painting: its [lineTo] calls. *)
Fixpoint count_lineTo (cs : list Canvas.call) : nat :=
  match cs with
  | [] => 0
  | Canvas.lineTo _ _ :: cs' => S (count_lineTo cs')
  | _ :: cs' => count_lineTo cs'
  end.

(** How often the status changes from one slot to the next, coming from
    [prev]. *)
Fixpoint changes (prev : option DutyStatus) (l : list jsval) : nat :=
  match l with
  | [] => 0
  | v :: l' =>
      (match prev, status_of v with
       | Some p, Some d => if bool_decide (p = d) then 0 else 1
       | _, _ => 0
       end) + changes (status_of v) l'
  end.

(** The slots a pending drag covers. *)
Definition pending_slots (g : Grid) : nat :=
  match range (drag g) with
  | Some r => Z.to_nat (end_ r - start r)
  | None => 0
  end.

(** A valid slot as the number of its status. *)
Definition canon (v : jsval) : jsval :=
  match status_of v with
  | Some d => JNum (ordinal d)
  | None => v
  end.

(** * Properties *)

(** ** Truncation by [| 0] *)

Section ToInt32_facts.

Lemma wrap32_small (z : Z) : - 2 ^ 31 <= z < 2 ^ 31 -> Num.wrap32 z = z.
Proof.
  intros Hz. unfold Num.wrap32.
  rewrite Z.mod_small; lia.
Qed.

Lemma Qtrunc_inject_Z (z : Z) : Num.Qtrunc (inject_Z z) = z.
Proof.
  unfold Num.Qtrunc.
  destruct (Qle_bool 0 (inject_Z z)); [apply Qfloor_Z | apply Qceiling_Z].
Qed.

Lemma pow2_pos (k : Z) : 0 <= k -> Z.pos (Z.to_pos (2 ^ k)) = 2 ^ k.
Proof.
  intros Hk. apply Z2Pos.id. apply Z.pow_pos_nonneg; lia.
Qed.

(** [truncSF] rounds the value of the float toward zero. *)
Lemma truncSF_Qtrunc (f : spec_float) : Num.truncSF f = Num.Qtrunc (Num.QofSF f).
Proof.
  destruct f as [s | s | | s m e]; try reflexivity.
  unfold Num.truncSF, Num.QofSF, Num.magnitude.
  destruct (Z.leb_spec 0 e) as [He | He].
  - rewrite Qtrunc_inject_Z, Z.shiftl_mul_pow2 by lia.
    destruct s; lia.
  - rewrite Z.shiftl_div_pow2 by lia.
    unfold Num.Qtrunc, Qle_bool, Qceiling, Qfloor, Qopp; simpl Qnum; simpl Qden.
    rewrite pow2_pos by lia.
    destruct s; simpl.
    + reflexivity.
    + reflexivity.
Qed.

Lemma ToInt32_trunc (f : float) :
  Num.ToInt32 f = Num.wrap32 (Num.Qtrunc (Num.QofFloat f)).
Proof. unfold Num.ToInt32, Num.QofFloat. now rewrite truncSF_Qtrunc. Qed.

Lemma Qtrunc_floor (q : Q) : (0 <= q)%Q -> Num.Qtrunc q = Qfloor q.
Proof.
  intros Hq. unfold Num.Qtrunc.
  apply Qle_bool_iff in Hq. now rewrite Hq.
Qed.

Lemma Qfloor_range (q : Q) :
  (0 <= q)%Q -> (q < inject_Z (2 ^ 31))%Q -> 0 <= Qfloor q < 2 ^ 31.
Proof.
  intros H0 H1. split.
  - change 0 with (Qfloor 0). now apply Qfloor_resp_le.
  - rewrite Zlt_Qlt. eapply Qle_lt_trans; [apply Qfloor_le | exact H1].
Qed.

(** On a quotient in [0, 2^31) the conversion is the floor. *)
Lemma ToInt32_floor (f : float) :
  (0 <= Num.QofFloat f)%Q -> (Num.QofFloat f < inject_Z (2 ^ 31))%Q ->
  Num.ToInt32 f = Qfloor (Num.QofFloat f).
Proof.
  intros H0 H1. rewrite ToInt32_trunc, Qtrunc_floor by exact H0.
  apply wrap32_small. pose proof (Qfloor_range _ H0 H1). lia.
Qed.

End ToInt32_facts.

(** ** The coordinate-to-slot mapping *)

(** [getMouseTime] applies [pixelToSlot] to the pointer position relative to
    the surface. *)
Lemma getMouseTime_unfold (w : world_t) (e : MouseEvent) :
  getMouseTime w e = pixelToSlot w (mouseX e) (mouseY e).
Proof. reflexivity. Qed.

(** C5, as the code has it.  For every position [(mx, my)] relative to a
    surface of size [(width, height)], the slot index is the binary64 quotient
    [mx / (width / 96)] rounded toward zero and the duty is the quotient
    [my / (height / 4)] rounded toward zero, plus one; the rounding is [| 0]
    (the result is reduced to a signed 32-bit integer, a quotient that is not
    finite counts as 0) and nothing clamps the result to the surface.  Where
    a quotient lies in [0, 2^31) the rounding is the floor. *)
Theorem pixelToSlot_rounds_toward_zero (w : world_t) (mx my : float) :
  let qx := Num.QofFloat (mx / (width w / 96))%float in
  let qy := Num.QofFloat (my / (height w / 4))%float in
  let m := pixelToSlot w mx my in
  min m = Num.wrap32 (Num.Qtrunc qx) /\
  mduty m = Num.wrap32 (Num.Qtrunc qy) + 1 /\
  ((0 <= qx)%Q -> (qx < inject_Z (2 ^ 31))%Q -> min m = Qfloor qx) /\
  ((0 <= qy)%Q -> (qy < inject_Z (2 ^ 31))%Q -> mduty m = Qfloor qy + 1).
Proof.
  cbv zeta. unfold pixelToSlot; cbn [min mduty].
  repeat split.
  - apply ToInt32_trunc.
  - now rewrite ToInt32_trunc.
  - apply ToInt32_floor.
  - intros H0 H1. now rewrite ToInt32_floor.
Qed.

(** On a 960 x 400 surface the position (985, 250), to the right of the
    surface, maps to slot 98 and duty 3: both are floors, and the slot is
    not clamped to 95. *)
Lemma pixelToSlot_rounds_toward_zero_witness :
  let w := {| width := 960%float; height := 400%float |} in
  min (pixelToSlot w 985%float 250%float)
    = Qfloor (Num.QofFloat (985 / (960 / 96))%float) /\
  min (pixelToSlot w 985%float 250%float) = 98.
Proof.
  cbv zeta. split.
  - apply (proj1 (proj2 (proj2
      (pixelToSlot_rounds_toward_zero
         {| width := 960%float; height := 400%float |} 985%float 250%float)))).
    + vm_compute. discriminate.
    + vm_compute. reflexivity.
  - vm_compute. reflexivity.
Defined.

(** C5 as stated fails left of the surface: at x = -1 on a surface 192 wide
    the quotient is -0.5, whose floor is -1, and the code returns slot 0. *)
Lemma pixelToSlot_is_not_floor :
  let w := {| width := 192%float; height := 4%float |} in
  let q := Num.QofFloat ((-1) / (192 / 96))%float in
  Qeq q (-1 # 2) /\ Qfloor q = -1 /\ min (pixelToSlot w (-1)%float 0%float) = 0 /\
  min (pixelToSlot w (-1)%float 0%float) <> Qfloor q.
Proof.
  cbv zeta. repeat split; vm_compute; congruence.
Qed.

(** ** Encoding and decoding *)

Section Encoding.

Lemma status_of_ordinal_Some (n : Z) (d : DutyStatus) :
  status_of_ordinal n = Some d -> n = ordinal d.
Proof.
  unfold status_of_ordinal.
  destruct (Z.eqb_spec n 1) as [-> | _]; [now intros [= <-] |].
  destruct (Z.eqb_spec n 2) as [-> | _]; [now intros [= <-] |].
  destruct (Z.eqb_spec n 3) as [-> | _]; [now intros [= <-] |].
  destruct (Z.eqb_spec n 4) as [-> | _]; [now intros [= <-] |].
  discriminate.
Qed.

Lemma status_of_digit_Some (c : ascii) (d : DutyStatus) :
  status_of_digit c = Some d -> c = digit d.
Proof.
  unfold status_of_digit.
  destruct (Ascii.eqb_spec c "1") as [-> | _]; [now intros [= <-] |].
  destruct (Ascii.eqb_spec c "2") as [-> | _]; [now intros [= <-] |].
  destruct (Ascii.eqb_spec c "3") as [-> | _]; [now intros [= <-] |].
  destruct (Ascii.eqb_spec c "4") as [-> | _]; [now intros [= <-] |].
  discriminate.
Qed.

Lemma status_of_digit_digit (d : DutyStatus) : status_of_digit (digit d) = Some d.
Proof. now destruct d. Qed.

Lemma status_of_ordinal_ordinal (d : DutyStatus) :
  status_of_ordinal (ordinal d) = Some d.
Proof. now destruct d. Qed.

(** A valid slot prints as its digit. *)
Lemma jsval_to_string_valid (v : jsval) (d : DutyStatus) :
  status_of v = Some d -> jsval_to_string v = String (digit d) EmptyString.
Proof.
  destruct v as [| n | c]; simpl.
  - discriminate.
  - intros ->%status_of_ordinal_Some. now destruct d.
  - now intros ->%status_of_digit_Some.
Qed.

Lemma join_cons_valid (v : jsval) (d : DutyStatus) (l : list jsval) (p : gmap Z jsval) :
  status_of v = Some d ->
  join {| elems := v :: l; props := p |}
    = String (digit d) (join {| elems := l; props := p |}).
Proof.
  intros Hv. unfold join; simpl. now rewrite (jsval_to_string_valid _ _ Hv).
Qed.

(** The characters of the encoding of valid slots, one per slot. *)
Lemma join_valid_chars (l : list jsval) (p : gmap Z jsval) :
  valid_slots l ->
  status_of_digit <$> list_ascii_of_string (join {| elems := l; props := p |})
    = status_of <$> l.
Proof.
  induction 1 as [| v l [d Hd] _ IH]; [reflexivity |].
  rewrite (join_cons_valid _ _ _ _ Hd). cbn [list_ascii_of_string].
  now rewrite !fmap_cons, status_of_digit_digit, Hd, IH.
Qed.

Lemma join_valid_length (l : list jsval) (p : gmap Z jsval) :
  valid_slots l -> String.length (join {| elems := l; props := p |}) = length l.
Proof.
  induction 1 as [| v l [d Hd] _ IH]; [reflexivity |].
  rewrite (join_cons_valid _ _ _ _ Hd). cbn [String.length length]. now rewrite IH.
Qed.

Lemma join_chars (cs : list ascii) (p : gmap Z jsval) :
  join {| elems := JChr <$> cs; props := p |} = string_of_list_ascii cs.
Proof.
  unfold join; cbn [elems]. induction cs as [| c cs IH]; [reflexivity |].
  rewrite fmap_cons. cbn [fold_right jsval_to_string string_of_list_ascii].
  now rewrite IH.
Qed.

Lemma length_96_nonempty (s : string) :
  String.length s = 96%nat -> String.eqb s EmptyString = false.
Proof. destruct s; [discriminate | reflexivity]. Qed.

(** With 96 characters the string is split. *)
Lemma constructTimesArray_96 (s : string) :
  String.length s = 96%nat -> constructTimesArray (Some s) = split_chars s.
Proof.
  intros Hs. unfold constructTimesArray.
  now rewrite (length_96_nonempty _ Hs), Hs.
Qed.

(** With any other length, or no string, the default is built. *)
Lemma constructTimesArray_other (str : option string) :
  String.length (default EmptyString str) <> 96%nat ->
  constructTimesArray str = default_times.
Proof.
  intros Hs. unfold constructTimesArray.
  replace (match str with Some s => s | None => EmptyString end)
    with (default EmptyString str) by now destruct str.
  destruct (Nat.eqb_spec (String.length (default EmptyString str)) 96) as [E | _];
    [contradiction |].
  now rewrite andb_false_r.
Qed.

Lemma SlotSequence_default : SlotSequence default_times.
Proof.
  split; [reflexivity |].
  apply Forall_forall. intros v Hv.
  apply elem_of_replicate in Hv as [-> _]. now exists OffDuty.
Qed.

End Encoding.

Section Roundtrip.

Lemma length_list_ascii_of_string (s : string) :
  length (list_ascii_of_string s) = String.length s.
Proof. induction s as [| c s IH]; [reflexivity |]. simpl. now rewrite IH. Qed.

Lemma valid_slots_statuses (l : list jsval) :
  valid_slots l <-> Forall is_Some (status_of <$> l).
Proof. unfold valid_slots. now rewrite Forall_fmap. Qed.

Lemma statuses_split_chars (s : string) :
  statuses (split_chars s) = status_of_digit <$> list_ascii_of_string s.
Proof.
  unfold statuses, split_chars; cbn [elems].
  rewrite <- list_fmap_compose. reflexivity.
Qed.

Lemma SlotSequence_split_chars (s : string) :
  String.length s = 96%nat -> digits_1_4 s -> SlotSequence (split_chars s).
Proof.
  intros Hlen Hdig. split.
  - unfold split_chars; cbn [elems].
    now rewrite length_fmap, length_list_ascii_of_string.
  - apply valid_slots_statuses.
    change (status_of <$> elems (split_chars s)) with (statuses (split_chars s)).
    rewrite statuses_split_chars. now apply Forall_fmap.
Qed.

(** Decoding the encoding of a slot sequence gives the same statuses. *)
Lemma decode_encode_statuses (t : jsArray) :
  SlotSequence t ->
  constructTimesArray (Some (toString t)) = split_chars (toString t) /\
  statuses (split_chars (toString t)) = statuses t.
Proof.
  destruct t as [l p]. intros [Hlen Hval]; cbn [elems] in *.
  unfold toString. split.
  - apply constructTimesArray_96. now rewrite join_valid_length.
  - rewrite statuses_split_chars. now apply join_valid_chars.
Qed.

(** Encoding the decoding of a 96-character string gives the string back. *)
Lemma encode_decode_string (s : string) :
  String.length s = 96%nat -> toString (constructTimesArray (Some s)) = s.
Proof.
  intros Hs. rewrite constructTimesArray_96 by exact Hs.
  unfold toString, split_chars. rewrite join_chars.
  apply string_of_list_ascii_of_string.
Qed.

End Roundtrip.

(** The constructor decodes [params.gridStr || '']; building the canvases
    leaves the array alone and completes normally. *)
Lemma grid_times (c : node) (params : option params_t) :
  times (grid c params)
    = constructTimesArray (Some (default EmptyString (params ≫= p_gridStr))).
Proof.
  destruct params as [[[s |] [[] |]] |]; reflexivity.
Qed.

Lemma constructCanvas_normal (g : Grid) : fst (constructCanvas g) = Normal tt.
Proof.
  unfold constructCanvas, bind, get. destruct (readOnly g); reflexivity.
Qed.

(** C9.  Decoding a string whose length is not 96, the empty string and an
    absent string included, returns an array, and it is the default: 96 slots,
    all off duty.  The constructor passes [params.gridStr || ''] on, so a grid
    built from such a string starts from the default as well. *)
Theorem constructTimesArray_fallback (str : option string) :
  String.length (default EmptyString str) <> 96%nat ->
  constructTimesArray str = default_times /\
  SlotSequence (constructTimesArray str) /\
  statuses (constructTimesArray str) = replicate 96 (Some OffDuty) /\
  forall (c : node) (ro : option bool),
    times (grid c (Some {| p_gridStr := str; p_readOnly := ro |})) = default_times.
Proof.
  intros Hs. rewrite (constructTimesArray_other _ Hs).
  repeat split; try apply SlotSequence_default.
  intros c ro. rewrite grid_times; cbn [mbind option_bind p_gridStr].
  apply constructTimesArray_other. now destruct str.
Qed.

Lemma constructTimesArray_fallback_witness :
  constructTimesArray (Some "1133"%string) = default_times /\
  constructTimesArray None = default_times.
Proof.
  split.
  - apply (constructTimesArray_fallback (Some "1133"%string)). simpl. lia.
  - apply (constructTimesArray_fallback None). simpl. lia.
Defined.

(** C4.  For a slot sequence [t] (96 slots, each a valid status), decoding
    its encoding gives a slot sequence with the same status in every slot;
    when the slots of [t] are digit characters, as decoding leaves them, the
    elements are the very same.  For a string [s] of 96 digits 1-4, decoding
    gives a slot sequence whose encoding is [s]. *)
Theorem decode_encode_roundtrip (t : jsArray) (s : string) :
  SlotSequence t ->
  String.length s = 96%nat ->
  digits_1_4 s ->
  let t' := constructTimesArray (Some (toString t)) in
  (SlotSequence t' /\ statuses t' = statuses t) /\
  (forall cs, elems t = JChr <$> cs -> elems t' = elems t) /\
  (SlotSequence (constructTimesArray (Some s)) /\
   toString (constructTimesArray (Some s)) = s).
Proof.
  intros Ht Hlen Hdig t'.
  destruct (decode_encode_statuses t Ht) as [Hdec Hst].
  assert (Hlen' : String.length (toString t) = 96%nat).
  { destruct t as [l p], Ht as [Hl Hv]; cbn [elems] in *.
    unfold toString. now rewrite join_valid_length. }
  subst t'. rewrite Hdec. repeat split.
  - unfold split_chars; cbn [elems].
    now rewrite length_fmap, length_list_ascii_of_string.
  - apply valid_slots_statuses.
    change (status_of <$> elems (split_chars (toString t)))
      with (statuses (split_chars (toString t))).
    rewrite Hst. apply valid_slots_statuses, Ht.
  - exact Hst.
  - intros cs Hcs. destruct t as [l p]; cbn [elems] in *. subst l.
    unfold toString, split_chars; cbn [elems].
    now rewrite join_chars, list_ascii_of_string_of_list_ascii.
  - rewrite constructTimesArray_96 by exact Hlen.
    apply (SlotSequence_split_chars s Hlen Hdig).
  - rewrite constructTimesArray_96 by exact Hlen.
    apply (SlotSequence_split_chars s Hlen Hdig).
  - now apply encode_decode_string.
Qed.

Lemma decode_encode_roundtrip_witness :
  let t := default_times in
  let s := toString default_times in
  statuses (constructTimesArray (Some (toString t))) = statuses t /\
  toString (constructTimesArray (Some s)) = s.
Proof.
  cbv zeta.
  assert (Hdig : digits_1_4 (toString default_times)).
  { unfold digits_1_4. apply (bool_decide_unpack _). vm_compute. exact I. }
  pose proof (decode_encode_roundtrip default_times (toString default_times)
                SlotSequence_default eq_refl Hdig) as H.
  cbv zeta in H. split; [apply H | apply H].
Defined.

(** ** Committing a drag: [saveDrag] *)

Section SaveDrag.

Lemma array_put_elems_neg (i : Z) (v : jsval) (t : jsArray) :
  i < 0 -> elems (array_put i v t) = elems t.
Proof.
  intros Hi. unfold array_put.
  destruct (Z.ltb_spec i 0); [reflexivity | lia].
Qed.

Lemma array_put_elems_in (i : Z) (v : jsval) (t : jsArray) :
  0 <= i < Z.of_nat (length (elems t)) ->
  elems (array_put i v t) = <[Z.to_nat i := v]> (elems t).
Proof.
  intros Hi. unfold array_put.
  destruct (Z.ltb_spec i 0); [lia |].
  destruct (Z.ltb_spec i (Z.of_nat (length (elems t)))); [reflexivity | lia].
Qed.

(** A loop that stays below the length of the array overwrites the slots
    it passes, from index 0 on, and nothing else. *)
Lemma saveDrag_loop_elems (v : jsval) (n : nat) :
  forall (i : Z) (t : jsArray),
    i + Z.of_nat n <= Z.of_nat (length (elems t)) ->
    elems (saveDrag_loop n i v t)
      = take (Z.to_nat i) (elems t)
          ++ replicate (Z.to_nat (i + Z.of_nat n) - Z.to_nat i) v
          ++ drop (Z.to_nat (i + Z.of_nat n)) (elems t).
Proof.
  induction n as [| n IH]; intros i t Hb.
  - cbn [saveDrag_loop]. rewrite Z.add_0_r, Nat.sub_diag.
    cbn [replicate app]. now rewrite take_drop.
  - cbn [saveDrag_loop]. destruct (Z.lt_ge_cases i 0) as [Hneg | Hpos].
    + rewrite IH by (rewrite array_put_elems_neg by exact Hneg; lia).
      rewrite array_put_elems_neg by exact Hneg.
      replace (Z.to_nat (i + 1)) with (Z.to_nat i) by lia.
      now replace (i + 1 + Z.of_nat n) with (i + Z.of_nat (S n)) by lia.
    + assert (Hin : 0 <= i < Z.of_nat (length (elems t))) by lia.
      rewrite IH by (rewrite array_put_elems_in, length_insert by exact Hin; lia).
      rewrite array_put_elems_in by exact Hin.
      replace (i + 1 + Z.of_nat n) with (i + Z.of_nat (S n)) by lia.
      replace (Z.to_nat (i + 1)) with (S (Z.to_nat i)) by lia.
      replace (Z.to_nat (i + Z.of_nat (S n)) - Z.to_nat i)%nat
        with (S (Z.to_nat (i + Z.of_nat (S n)) - S (Z.to_nat i)))%nat by lia.
      rewrite drop_insert_lt by lia.
      erewrite take_S_r by (apply list_lookup_insert_eq; lia).
      rewrite take_insert_ge by lia.
      cbn [replicate]. now rewrite <- app_assoc.
Qed.

(** With no iteration the array is left as it is. *)
Lemma saveDrag_loop_none (v : jsval) (i : Z) (t : jsArray) :
  saveDrag_loop 0 i v t = t.
Proof. reflexivity. Qed.

(** What [saveDrag] does to a grid that has a drag range. *)
Lemma saveDrag_range (g : Grid) (r : dragRange) :
  range (drag g) = Some r ->
  saveDrag g =
    (Normal tt,
     {| callBack_calls := callBack_calls g;
        times := saveDrag_loop (Z.to_nat (end_ r - start r)) (start r)
                   (match duty (drag g) with Some d => JNum d | None => JUndef end)
                   (times g);
        readOnly := readOnly g; world := world g; mouseDown := mouseDown g;
        drag := no_drag; observers := observers g |}).
Proof.
  intros Hr. unfold saveDrag, bind, get. now rewrite Hr.
Qed.

(** Without a range it throws and changes nothing. *)
Lemma saveDrag_no_range (g : Grid) :
  range (drag g) = None -> saveDrag g = (Throw TypeError, g).
Proof.
  intros Hr. unfold saveDrag, bind, get. now rewrite Hr.
Qed.

End SaveDrag.

Section Splice.

Lemma splice_length (a b : nat) (v : jsval) (l : list jsval) :
  (a <= b <= length l)%nat -> length (splice a b v l) = length l.
Proof.
  intros H. unfold splice.
  rewrite !length_app, length_take, length_replicate, length_drop. lia.
Qed.

Lemma splice_lookup (a b : nat) (v : jsval) (l : list jsval) (j : nat) :
  (a <= b <= length l)%nat ->
  splice a b v l !! j = if bool_decide (a <= j < b)%nat then Some v else l !! j.
Proof.
  intros H. unfold splice.
  assert (Ha : length (take a l) = a) by (rewrite length_take; lia).
  case_bool_decide as Hj.
  - rewrite lookup_app_r by lia. rewrite Ha.
    rewrite lookup_app_l by (rewrite length_replicate; lia).
    apply lookup_replicate_2. lia.
  - destruct (Nat.lt_ge_cases j a) as [Hlt | Hge].
    + rewrite lookup_app_l by lia. now apply lookup_take_lt.
    + rewrite lookup_app_r by lia. rewrite Ha.
      rewrite lookup_app_r by (rewrite length_replicate; lia).
      rewrite length_replicate, lookup_drop. f_equal. lia.
Qed.

Lemma splice_valid (a b : nat) (v : jsval) (l : list jsval) :
  is_Some (status_of v) -> valid_slots l -> valid_slots (splice a b v l).
Proof.
  intros Hv Hl. unfold splice, valid_slots.
  rewrite !Forall_app. repeat split.
  - now apply Forall_take.
  - now apply Forall_replicate.
  - now apply Forall_drop.
Qed.

(** A forward drag that ends inside the array splices the duty in. *)
Lemma saveDrag_loop_splice (v : jsval) (s e : Z) (t : jsArray) :
  s <= e -> e <= Z.of_nat (length (elems t)) ->
  elems (saveDrag_loop (Z.to_nat (e - s)) s v t)
    = splice (Z.to_nat s) (Z.to_nat e) v (elems t).
Proof.
  intros Hse He. rewrite saveDrag_loop_elems by lia.
  now replace (s + Z.of_nat (Z.to_nat (e - s))) with e by lia.
Qed.

End Splice.

(** [mouseupHandler] on a grid with a drag range: the range is committed, the
    drag state is reset, and an editable grid notifies its caller. *)
Lemma mouseupHandler_range (g : Grid) (r : dragRange) :
  range (drag g) = Some r ->
  mouseupHandler g =
    (Normal tt,
     {| callBack_calls :=
          if readOnly g then callBack_calls g else S (callBack_calls g);
        times := saveDrag_loop (Z.to_nat (end_ r - start r)) (start r)
                   (match duty (drag g) with Some d => JNum d | None => JUndef end)
                   (times g);
        readOnly := readOnly g; world := world g; mouseDown := false;
        drag := no_drag; observers := observers g |}).
Proof.
  intros Hr. unfold mouseupHandler, saveDrag, bind, get, set_mouseDown, put.
  cbn. rewrite Hr. cbn. destruct (readOnly g); reflexivity.
Qed.

(** C7.  Committing a range whose end is not greater than its start, by
    [saveDrag] or through [mouseupHandler], completes and leaves [times] as
    it was: every slot, the length, and everything else in the array. *)
Theorem saveDrag_reverse_noop (g : Grid) (r : dragRange) :
  range (drag g) = Some r ->
  end_ r <= start r ->
  fst (saveDrag g) = Normal tt /\
  times (snd (saveDrag g)) = times g /\
  fst (mouseupHandler g) = Normal tt /\
  times (snd (mouseupHandler g)) = times g.
Proof.
  intros Hr Hle.
  rewrite (saveDrag_range g r Hr), (mouseupHandler_range g r Hr); cbn [fst snd times].
  replace (Z.to_nat (end_ r - start r)) with 0%nat by lia.
  now rewrite saveDrag_loop_none.
Qed.

(** Inside the documented range.  When the drag range ends at or before
    slot 96 and the duty is a valid status, committing it sets exactly the
    slots [i] with [start <= i < end] among [0 .. 95] to that duty (a range
    that starts left of slot 0 is cut off at 0), and [times] is still a slot
    sequence: 96 slots, each a valid status. *)
Theorem saveDrag_sets_range (g : Grid) (r : dragRange) (d : DutyStatus) :
  SlotSequence (times g) ->
  range (drag g) = Some r ->
  duty (drag g) = Some (ordinal d) ->
  end_ r <= 96 ->
  fst (saveDrag g) = Normal tt /\
  (forall i : Z, 0 <= i < 96 ->
     array_get i (times (snd (saveDrag g)))
       = if ((start r <=? i) && (i <? end_ r))%bool then JNum (ordinal d)
         else array_get i (times g)) /\
  SlotSequence (times (snd (saveDrag g))).
Proof.
  intros [Hlen Hval] Hr Hd He.
  rewrite (saveDrag_range g r Hr), Hd; cbn [fst snd times].
  split; [reflexivity |].
  destruct (Z.le_gt_cases (end_ r) (start r)) as [Hrev | Hfwd].
  - replace (Z.to_nat (end_ r - start r)) with 0%nat by lia.
    rewrite saveDrag_loop_none. split; [| now split].
    intros i Hi.
    destruct (Z.leb_spec (start r) i), (Z.ltb_spec i (end_ r)); try reflexivity; lia.
  - assert (Hsp := saveDrag_loop_splice (JNum (ordinal d)) (start r) (end_ r)
                     (times g) ltac:(lia) ltac:(lia)).
    split; [| split].
    + intros i Hi. unfold array_get.
      destruct (Z.ltb_spec i 0); [lia |].
      rewrite Hsp, splice_lookup by lia.
      case_bool_decide as Hj;
        destruct (Z.leb_spec (start r) i), (Z.ltb_spec i (end_ r));
        try reflexivity; lia.
    + rewrite Hsp, splice_length by lia. exact Hlen.
    + rewrite Hsp. apply splice_valid; [| exact Hval].
      cbn [status_of]. rewrite status_of_ordinal_ordinal. now eexists.
Qed.

(** Button down in slot 20, pointer moved back to slot 10: committing the
    reverse range changes nothing. *)
Lemma saveDrag_reverse_noop_witness :
  let g := run [pointer mousedown 200%float 250%float;
                pointer mousemove 100%float 250%float] fresh in
  range (drag g) = Some {| start := 20; end_ := 10 |} /\
  times (snd (saveDrag g)) = times g.
Proof.
  cbv zeta. split; [vm_compute; reflexivity |].
  apply (saveDrag_reverse_noop _ {| start := 20; end_ := 10 |}).
  - vm_compute; reflexivity.
  - cbn [start end_]. lia.
Defined.

(** Button down in slot 10 of the driving band, pointer moved to slot 20:
    the commit writes driving into slots 10 to 19. *)
Lemma saveDrag_sets_range_witness :
  let g := run [pointer mousedown 100%float 250%float;
                pointer mousemove 200%float 250%float] fresh in
  array_get 9 (times (snd (saveDrag g))) = JNum 1 /\
  array_get 10 (times (snd (saveDrag g))) = JNum 3 /\
  array_get 19 (times (snd (saveDrag g))) = JNum 3 /\
  array_get 20 (times (snd (saveDrag g))) = JNum 1 /\
  SlotSequence (times (snd (saveDrag g))).
Proof.
  cbv zeta.
  pose proof (saveDrag_sets_range
                (run [pointer mousedown 100%float 250%float;
                      pointer mousemove 200%float 250%float] fresh)
                {| start := 10; end_ := 20 |} Driving) as H.
  destruct H as (_ & Hget & Hseq).
  - slot_sequence.
  - vm_compute; reflexivity.
  - vm_compute; reflexivity.
  - cbn [end_]. lia.
  - split; [| split; [| split; [| split]]]; [| | | | exact Hseq];
      now rewrite Hget by lia.
Defined.

(** C1 at the failing inputs.  The source documents the grid string as 96
    characters, [times] as its array form and the duties as the numbers 1
    through 4, and [mouseoutHandler] ends a drag at 96; [saveDrag] checks
    none of it.  A drag from slot 95 to a pointer position right of the
    surface (slot 98) is committed as it is: the array grows to 98 slots,
    [toString] gives 98 characters, and [constructTimesArray] refuses that
    string and falls back to the default, so the edit does not survive a
    reload.  A drag that ends below the surface carries duty 5, and that is
    what the commit writes. *)
Theorem saveDrag_is_not_clamped :
  let g := run [pointer mousedown 950%float 250%float;
                pointer mousemove 985%float 250%float] fresh in
  let h := run [pointer mousedown 100%float 250%float;
                pointer mousemove 200%float 450%float] fresh in
  (SlotSequence (times g) /\
   drag g = {| range := Some {| start := 95; end_ := 98 |}; duty := Some 3 |} /\
   fst (saveDrag g) = Normal tt /\
   length (elems (times (snd (saveDrag g)))) = 98%nat /\
   String.length (toString (times (snd (saveDrag g)))) = 98%nat /\
   constructTimesArray (Some (toString (times (snd (saveDrag g)))))
     = default_times /\
   ~ SlotSequence (times (snd (saveDrag g)))) /\
  (SlotSequence (times h) /\
   drag h = {| range := Some {| start := 10; end_ := 20 |}; duty := Some 5 |} /\
   fst (saveDrag h) = Normal tt /\
   array_get 10 (times (snd (saveDrag h))) = JNum 5 /\
   status_of (JNum 5) = None /\
   ~ SlotSequence (times (snd (saveDrag h)))).
Proof.
  cbv zeta. split.
  - split; [slot_sequence |].
    do 5 (split; [vm_compute; reflexivity |]).
    intros [Hlen _]. vm_compute in Hlen. discriminate.
  - split; [slot_sequence |].
    do 4 (split; [vm_compute; reflexivity |]).
    intros [_ Hval]. unfold valid_slots in Hval.
    apply (Forall_lookup_1 _ _ 10%nat (JNum 5)) in Hval.
    + destruct Hval as [x Hx]. vm_compute in Hx. discriminate.
    + vm_compute. reflexivity.
Qed.

(** ** The event handlers as a state machine *)

Section Handlers.

Lemma mousedownHandler_eq (e : MouseEvent) (g : Grid) :
  mousedownHandler e g =
    (Normal tt,
     {| callBack_calls := callBack_calls g; times := times g;
        readOnly := readOnly g; world := world g; mouseDown := true;
        drag := {| range := Some {| start := match range (drag g) with
                                             | Some r => start r
                                             | None => min (getMouseTime (world g) e)
                                             end;
                                    end_ := min (getMouseTime (world g) e) |};
                   duty := Some (mduty (getMouseTime (world g) e)) |};
        observers := observers g |}).
Proof. reflexivity. Qed.

Lemma mousemoveHandler_up (e : MouseEvent) (g : Grid) :
  mouseDown g = false -> mousemoveHandler e g = (Normal tt, g).
Proof.
  intros H. unfold mousemoveHandler, bind, get. now rewrite H.
Qed.

Lemma mousemoveHandler_down (e : MouseEvent) (g : Grid) :
  mouseDown g = true ->
  mousemoveHandler e g =
    (Normal tt,
     {| callBack_calls := callBack_calls g; times := times g;
        readOnly := readOnly g; world := world g; mouseDown := mouseDown g;
        drag := {| range := Some {| start := match range (drag g) with
                                             | Some r => start r
                                             | None => min (getMouseTime (world g) e)
                                             end;
                                    end_ := min (getMouseTime (world g) e) |};
                   duty := Some (mduty (getMouseTime (world g) e)) |};
        observers := observers g |}).
Proof.
  intros H. destruct g; cbn in H; subst. reflexivity.
Qed.

(** A mouseup with no drag range: [saveDrag] throws after [mouseDown] has
    been cleared; the callback is not reached. *)
Lemma mouseupHandler_no_range (g : Grid) :
  range (drag g) = None ->
  mouseupHandler g =
    (Throw TypeError,
     {| callBack_calls := callBack_calls g; times := times g;
        readOnly := readOnly g; world := world g; mouseDown := false;
        drag := drag g; observers := observers g |}).
Proof.
  intros Hr. unfold mouseupHandler, saveDrag, bind, get, set_mouseDown, put.
  cbn. now rewrite Hr.
Qed.

Lemma mouseoutHandler_idle (g : Grid) :
  match range (drag g) with Some r => end_ r >? 93 | None => false end = false ->
  mouseoutHandler g = (Normal tt, g).
Proof.
  unfold mouseoutHandler, bind, get.
  destruct (range (drag g)) as [r |]; [| reflexivity].
  now intros ->.
Qed.

Lemma mouseoutHandler_commit (g : Grid) (r : dragRange) :
  range (drag g) = Some r -> (end_ r >? 93) = true ->
  mouseoutHandler g =
    (Normal tt,
     {| callBack_calls :=
          if readOnly g then callBack_calls g else S (callBack_calls g);
        times := saveDrag_loop (Z.to_nat (96 - start r)) (start r)
                   (match duty (drag g) with Some d => JNum d | None => JUndef end)
                   (times g);
        readOnly := readOnly g; world := world g; mouseDown := false;
        drag := no_drag; observers := observers g |}).
Proof.
  intros Hr He. unfold mouseoutHandler, bind, get. rewrite Hr, He.
  unfold set_drag, bind, get, put.
  now rewrite (mouseupHandler_range _ {| start := start r; end_ := 96 |}).
Qed.

Lemma dispatch_editable (ev : event) (g : Grid) :
  editable g -> dispatch ev g = handler (name ev) (mouse ev) g.
Proof.
  intros [_ Hobs]. unfold dispatch, bind, get. rewrite Hobs.
  destruct (name ev); reflexivity.
Qed.

Lemma dispatch_no_observers (ev : event) (g : Grid) :
  observers g = [] -> dispatch ev g = (Normal tt, g).
Proof.
  intros Hobs. unfold dispatch, bind, get. rewrite Hobs. reflexivity.
Qed.

End Handlers.

Section Delivery.

Lemma run_cons (ev : event) (evs : list event) (g : Grid) :
  run (ev :: evs) g = run evs (snd (dispatch ev g)).
Proof.
  unfold run; cbn [deliver].
  destruct (dispatch ev g) as [c g']. destruct (deliver evs g') as [cs g''] eqn:E.
  cbn [snd]. now rewrite E.
Qed.

Lemma run_app (evs1 evs2 : list event) (g : Grid) :
  run (evs1 ++ evs2) g = run evs2 (run evs1 g).
Proof.
  revert g. induction evs1 as [| ev evs1 IH]; intros g; [reflexivity |].
  rewrite <- app_comm_cons, !run_cons. apply IH.
Qed.

(** Every event leaves an editable grid editable, and the callback count
    goes up by one exactly when the event commits an edit. *)
Lemma dispatch_counts (ev : event) (g : Grid) :
  editable g ->
  editable (snd (dispatch ev g)) /\
  callBack_calls (snd (dispatch ev g))
    = (callBack_calls g + if commits ev g then 1 else 0)%nat.
Proof.
  intros Hed. rewrite (dispatch_editable _ _ Hed).
  destruct Hed as [Hro Hobs]. unfold editable, commits.
  destruct ev as [[] e]; cbn [handler name mouse].
  - destruct (mouseDown g) eqn:Hmd.
    + rewrite mousemoveHandler_down by exact Hmd. cbn. split; [easy | lia].
    + rewrite mousemoveHandler_up by exact Hmd. cbn. split; [easy | lia].
  - rewrite mousedownHandler_eq. cbn. split; [easy | lia].
  - destruct (range (drag g)) as [r |] eqn:Hr.
    + rewrite (mouseupHandler_range _ _ Hr), Hro. cbn. split; [easy | lia].
    + rewrite (mouseupHandler_no_range _ Hr). cbn. split; [easy | lia].
  - destruct (range (drag g)) as [r |] eqn:Hr.
    + destruct (end_ r >? 93) eqn:He.
      * rewrite (mouseoutHandler_commit _ _ Hr He), Hro. cbn. split; [easy | lia].
      * rewrite mouseoutHandler_idle by now rewrite Hr.
        cbn. split; [easy | lia].
    + rewrite mouseoutHandler_idle by now rewrite Hr.
      cbn. split; [easy | lia].
Qed.

(** While the button is held and the pointer moves, the grid stays
    editable, keeps a drag range and does not call back. *)
Lemma moves_keep_dragging (moves : list MouseEvent) :
  forall g : Grid,
    editable g -> is_Some (range (drag g)) ->
    editable (run (pointer_move <$> moves) g) /\
    is_Some (range (drag (run (pointer_move <$> moves) g))) /\
    callBack_calls (run (pointer_move <$> moves) g) = callBack_calls g.
Proof.
  induction moves as [| e moves IH]; intros g Hed Hr; [easy |].
  rewrite fmap_cons, run_cons.
  destruct (dispatch_counts (pointer_move e) g Hed) as [Hed' Hcb].
  assert (Hr' : is_Some (range (drag (snd (dispatch (pointer_move e) g))))).
  { rewrite (dispatch_editable _ _ Hed); cbn [handler name mouse pointer_move].
    destruct (mouseDown g) eqn:Hmd.
    - rewrite mousemoveHandler_down by exact Hmd. cbn. now eexists.
    - now rewrite mousemoveHandler_up by exact Hmd. }
  destruct (IH _ Hed' Hr') as (H1 & H2 & H3).
  split; [exact H1 | split; [exact H2 |]].
  rewrite H3, Hcb. unfold commits; cbn. lia.
Qed.

Lemma dragging_state (down : MouseEvent) (moves : list MouseEvent) (g : Grid) :
  editable g ->
  editable (run (pointer_down down :: (pointer_move <$> moves)) g) /\
  is_Some (range (drag (run (pointer_down down :: (pointer_move <$> moves)) g))) /\
  callBack_calls (run (pointer_down down :: (pointer_move <$> moves)) g)
    = callBack_calls g.
Proof.
  intros Hed. rewrite run_cons.
  destruct (dispatch_counts (pointer_down down) g Hed) as [Hed' Hcb].
  assert (Hr : is_Some (range (drag (snd (dispatch (pointer_down down) g))))).
  { rewrite (dispatch_editable _ _ Hed); cbn [handler name mouse pointer_down].
    rewrite mousedownHandler_eq. cbn. now eexists. }
  destruct (moves_keep_dragging moves _ Hed' Hr) as (H1 & H2 & H3).
  split; [exact H1 | split; [exact H2 |]].
  rewrite H3, Hcb. unfold commits; cbn. lia.
Qed.

(** Construction: the listeners are attached and the callback is called,
    both only when the grid is not read-only. *)
Lemma grid_editable (c : node) (params : option params_t) :
  readOnly (grid c params) = false ->
  editable (grid c params) /\ callBack_calls (grid c params) = 1%nat.
Proof.
  destruct params as [[s [[] |]] |]; cbn; intros H; try discriminate; easy.
Qed.

Lemma grid_readOnly (c : node) (s : option string) :
  let g := grid c (Some {| p_gridStr := s; p_readOnly := Some true |}) in
  readOnly g = true /\ observers g = [] /\ callBack_calls g = 0%nat.
Proof. easy. Qed.

Lemma deliver_no_observers (evs : list event) (g : Grid) :
  observers g = [] ->
  deliver evs g = (replicate (length evs) (Normal tt), g).
Proof.
  intros Hobs. induction evs as [| ev evs IH]; [reflexivity |].
  cbn [deliver]. rewrite (dispatch_no_observers _ _ Hobs), IH. reflexivity.
Qed.

End Delivery.

(** C2, as the code has it.  An editable grid calls back once when it is
    constructed.  From then on every event raises the count of calls by one
    if it commits an edit (a mouseup with a drag range, or the mouseout that
    ends a drag beyond slot 93) and leaves it alone otherwise.  So for every
    gesture of button down, any number of moves, button up, from any state of
    an editable grid: no call while dragging, the button up commits and
    completes, and the whole gesture adds exactly one call. *)
Theorem callBack_once_per_commit
    (g : Grid) (down up : MouseEvent) (moves : list MouseEvent) :
  editable g ->
  let dragging := pointer_down down :: (pointer_move <$> moves) in
  (forall (c : node) (params : option params_t),
     readOnly (grid c params) = false ->
     editable (grid c params) /\ callBack_calls (grid c params) = 1%nat) /\
  (forall ev : event,
     callBack_calls (snd (dispatch ev g))
       = (callBack_calls g + if commits ev g then 1 else 0)%nat) /\
  (forall k : nat, callBack_calls (run (take k dragging) g) = callBack_calls g) /\
  commits (pointer_up up) (run dragging g) = true /\
  fst (dispatch (pointer_up up) (run dragging g)) = Normal tt /\
  callBack_calls (run (dragging ++ [pointer_up up]) g) = S (callBack_calls g).
Proof.
  intros Hed dragging.
  destruct (dragging_state down moves g Hed) as (Hed' & [r Hr] & Hcb).
  fold dragging in Hed', Hr, Hcb.
  split; [exact grid_editable |].
  split; [intros ev; apply (dispatch_counts ev g Hed) |].
  split; [| split; [| split]].
  - intros [| k]; [reflexivity |].
    subst dragging. rewrite firstn_cons, <- fmap_take.
    apply (dragging_state down (take k moves) g Hed).
  - unfold commits; cbn [name pointer_up]. now rewrite Hr.
  - rewrite (dispatch_editable _ _ Hed'); cbn [handler name pointer_up].
    now rewrite (mouseupHandler_range _ _ Hr).
  - rewrite run_app, run_cons; cbn [run deliver snd].
    destruct (dispatch_counts (pointer_up up) _ Hed') as [_ ->].
    unfold commits; cbn [name pointer_up]. rewrite Hr, Hcb. lia.
Qed.

(** Button down in slot 10, two moves ending in slot 20, button up on a fresh
    grid: one call at construction and one for the gesture. *)
Lemma callBack_once_per_commit_witness :
  let gesture := [pointer mousedown 100%float 250%float;
                  pointer mousemove 150%float 250%float;
                  pointer mousemove 200%float 250%float;
                  pointer mouseup 200%float 250%float] in
  callBack_calls fresh = 1%nat /\
  callBack_calls (run gesture fresh) = S (callBack_calls fresh).
Proof.
  cbv zeta. split; [reflexivity |].
  apply (callBack_once_per_commit fresh
           (mouse (pointer mousedown 100%float 250%float))
           (mouse (pointer mouseup 200%float 250%float))
           [mouse (pointer mousemove 150%float 250%float);
            mouse (pointer mousemove 200%float 250%float)]).
  split; reflexivity.
Defined.

(** C2 as stated fails: constructing an editable grid calls back although no
    pointer event has been delivered and no edit committed. *)
Lemma callBack_fires_at_construction :
  readOnly fresh = false /\
  run [] fresh = fresh /\
  times fresh = default_times /\
  callBack_calls fresh = 1%nat.
Proof. repeat split. Qed.

(** C3 at the failing input.  On a fresh editable grid, where no drag range
    is active, a mouseup makes [saveDrag] raise a TypeError out of the
    handler; the callback is not reached.  The same happens to a second
    mouseup after a completed gesture. *)
Theorem mouseup_without_drag_throws :
  range (drag fresh) = None /\
  fst (dispatch (pointer mouseup 0%float 0%float) fresh) = Throw TypeError /\
  callBack_calls (snd (dispatch (pointer mouseup 0%float 0%float) fresh))
    = callBack_calls fresh /\
  fst (deliver [pointer mousedown 100%float 250%float;
                pointer mouseup 100%float 250%float;
                pointer mouseup 100%float 250%float] fresh)
    = [Normal tt; Normal tt; Throw TypeError].
Proof. repeat split. Qed.

(** The other handlers complete from every state; [mouseupHandler] completes
    exactly when there is a drag range. *)
Lemma handlers_complete (g : Grid) (e : MouseEvent) :
  fst (mousedownHandler e g) = Normal tt /\
  fst (mousemoveHandler e g) = Normal tt /\
  fst (mouseoutHandler g) = Normal tt /\
  (fst (mouseupHandler g) = Normal tt <-> is_Some (range (drag g))).
Proof.
  split; [reflexivity |]. split; [| split].
  - destruct (mouseDown g) eqn:Hmd.
    + now rewrite mousemoveHandler_down.
    + now rewrite mousemoveHandler_up.
  - destruct (range (drag g)) as [r |] eqn:Hr.
    + destruct (end_ r >? 93) eqn:He.
      * now rewrite (mouseoutHandler_commit _ _ Hr He).
      * rewrite mouseoutHandler_idle; [reflexivity | now rewrite Hr].
    + rewrite mouseoutHandler_idle; [reflexivity | now rewrite Hr].
  - destruct (range (drag g)) as [r |] eqn:Hr.
    + rewrite (mouseupHandler_range _ _ Hr). split; [now eexists | reflexivity].
    + rewrite (mouseupHandler_no_range _ Hr). split; [discriminate |].
      intros [x Hx]. discriminate.
Qed.

(** C8.  A grid constructed read-only has no listener and has not called
    back; whatever pointer events the host delivers, every one completes, the
    grid object stays as constructed, so [times] is not touched, and the
    callback is never called. *)
Theorem readOnly_ignores_events
    (c : node) (s : option string) (evs : list event) :
  let g := grid c (Some {| p_gridStr := s; p_readOnly := Some true |}) in
  readOnly g = true /\
  fst (deliver evs g) = replicate (length evs) (Normal tt) /\
  run evs g = g /\
  times (run evs g) = times g /\
  callBack_calls (run evs g) = 0%nat.
Proof.
  intros g. destruct (grid_readOnly c s) as (Hro & Hobs & Hcb). fold g in Hro, Hobs, Hcb.
  unfold run. rewrite (deliver_no_observers evs g Hobs); cbn [fst snd].
  now rewrite Hcb.
Qed.

(** ** Hour totals *)

Section Totals.

(** Matching a one-character pattern counts the occurrences of the
    character. *)
Lemma match_from_char (c : ascii) (s : string) :
  length (match_from (String c EmptyString) 0 s) = count_char c s.
Proof.
  induction s as [| c' s IH]; [reflexivity |].
  cbn [match_from count_char String.prefix String.length Nat.sub].
  destruct (Ascii.eqb_spec c c') as [-> | Hne].
  - destruct (ascii_dec c' c') as [_ | []]; [| reflexivity].
    replace (String.prefix EmptyString s) with true by now destruct s.
    cbn [length]. now rewrite IH.
  - destruct (ascii_dec c c') as [E | _]; [contradiction |]. exact IH.
Qed.

Lemma digit_inj (k d : DutyStatus) : digit k = digit d -> k = d.
Proof. destruct k, d; simpl; congruence. Qed.

(** In the encoding of valid slots, the digit of [k] occurs once per slot
    that holds [k]. *)
Lemma count_char_join (k : DutyStatus) (l : list jsval) (p : gmap Z jsval) :
  valid_slots l ->
  count_char (digit k) (join {| elems := l; props := p |}) = slots_with k l.
Proof.
  induction 1 as [| v l [d Hd] _ IH]; [reflexivity |].
  rewrite (join_cons_valid _ _ _ _ Hd). cbn [count_char slots_with].
  rewrite IH, Hd. f_equal.
  destruct (Ascii.eqb_spec (digit k) (digit d)) as [E | Hne].
  - apply digit_inj in E as ->. now rewrite bool_decide_eq_true_2.
  - rewrite bool_decide_eq_false_2; [reflexivity |].
    intros [= ->]. now apply Hne.
Qed.

Lemma string_of_ordinal (k : DutyStatus) :
  string_of_Z (ordinal k) = String (digit k) EmptyString.
Proof. now destruct k. Qed.

(** The object [getHourTotals] builds for a non-empty array: one entry per
    type name, each the match count of its duty number over four. *)
Lemma getHourTotals_entries (t : jsArray) (k : DutyStatus) :
  elems t <> [] ->
  hours k t =
    match match_g (string_of_Z (ordinal k)) (toString t) with
    | Some f => (inject_Z (Z.of_nat (length f)) / 4)%Q
    | None => 0%Q
    end.
Proof.
  intros Hne. unfold hours, getHourTotals.
  destruct (elems t) as [| v l] eqn:E; [contradiction |].
  cbn [length Nat.eqb mbind option_bind].
  destruct k; reflexivity.
Qed.

Lemma hours_quarter (t : jsArray) (k : DutyStatus) :
  elems t <> [] -> valid_slots (elems t) ->
  (hours k t == quarter (slots_with k (elems t)))%Q.
Proof.
  intros Hne Hval. rewrite (getHourTotals_entries t k Hne).
  destruct t as [l p]; cbn [elems] in *.
  rewrite <- (count_char_join k l p Hval), <- match_from_char.
  unfold match_g, toString, quarter. rewrite string_of_ordinal.
  destruct (match_from _ 0 _); reflexivity.
Qed.

Lemma quarter_plus (n m : nat) : (quarter n + quarter m == quarter (n + m))%Q.
Proof.
  unfold quarter. rewrite Nat2Z.inj_add, inject_Z_plus. field.
Qed.

Lemma quarter_nonneg (n : nat) : (0 <= quarter n)%Q.
Proof.
  unfold quarter. apply Qle_shift_div_l; [reflexivity |].
  rewrite Qmult_0_l. change 0%Q with (inject_Z 0).
  rewrite <- Zle_Qle. lia.
Qed.

(** Every valid slot is counted under exactly one status. *)
Lemma slots_with_total (l : list jsval) :
  valid_slots l ->
  (slots_with OffDuty l + slots_with SleeperBerth l
   + slots_with Driving l + slots_with OnDuty l)%nat = length l.
Proof.
  induction 1 as [| v l [d Hd] _ IH]; [reflexivity |].
  cbn [slots_with length]. rewrite Hd.
  destruct d; repeat case_bool_decide; try congruence; lia.
Qed.

Lemma slots_with_app (k : DutyStatus) (l1 l2 : list jsval) :
  slots_with k (l1 ++ l2) = (slots_with k l1 + slots_with k l2)%nat.
Proof.
  induction l1 as [| v l1 IH]; [reflexivity |].
  cbn [app slots_with]. rewrite IH. lia.
Qed.

Lemma slots_with_replicate (k : DutyStatus) (n : nat) (v : jsval) :
  slots_with k (replicate n v)
    = if bool_decide (status_of v = Some k) then n else 0%nat.
Proof.
  induction n as [| n IH]; cbn [replicate slots_with].
  - now destruct (bool_decide _).
  - rewrite IH. destruct (bool_decide _); lia.
Qed.

(** Slots that all hold [p] count fully for [p] and not for anything else. *)
Lemma slots_with_uniform (k p : DutyStatus) (l : list jsval) :
  Forall (fun v => status_of v = Some p) l ->
  slots_with k l = if bool_decide (p = k) then length l else 0%nat.
Proof.
  induction 1 as [| v l Hv _ IH]; cbn [slots_with length].
  - now destruct (bool_decide _).
  - rewrite IH, Hv.
    destruct (decide (p = k)) as [-> | Hne].
    + now rewrite !bool_decide_eq_true_2.
    + rewrite !bool_decide_eq_false_2; [reflexivity | exact Hne |].
      intros [= E]. now apply Hne.
Qed.

End Totals.

(** C10.  For a slot sequence (96 slots, each a valid status) [getHourTotals]
    returns an object with exactly the four entries off, sleeper, drive and
    onduty; each entry is nonnegative and the four add up to 24. *)
Theorem getHourTotals_sum_24 (t : jsArray) :
  SlotSequence t ->
  exists totals : gmap string Q,
    getHourTotals t = Some totals /\
    dom totals = list_to_set types /\
    (forall k : DutyStatus,
       totals !! type_name k = Some (hours k t) /\ (0 <= hours k t)%Q) /\
    (hours OffDuty t + hours SleeperBerth t + hours Driving t + hours OnDuty t
     == 24)%Q.
Proof.
  intros [Hlen Hval].
  assert (Hne : elems t <> []) by (intros E; rewrite E in Hlen; discriminate).
  exists (totals_loop (toString t) 0 types ∅).
  split; [| split; [| split]].
  - unfold getHourTotals. now rewrite Hlen.
  - cbn [totals_loop types]. rewrite !dom_insert_L, dom_empty_L.
    cbn [list_to_set]. set_solver.
  - intros k. split.
    + unfold hours, getHourTotals. rewrite Hlen.
      destruct k; reflexivity.
    + rewrite (hours_quarter t k Hne Hval). apply quarter_nonneg.
  - rewrite !(hours_quarter t _ Hne Hval), !quarter_plus.
    rewrite (slots_with_total _ Hval), Hlen. reflexivity.
Qed.

Lemma getHourTotals_sum_24_witness :
  (hours OffDuty default_times + hours SleeperBerth default_times
   + hours Driving default_times + hours OnDuty default_times == 24)%Q /\
  (hours OffDuty default_times == 24)%Q.
Proof.
  split.
  - destruct (getHourTotals_sum_24 default_times SlotSequence_default)
      as (totals & _ & _ & _ & Hsum).
    exact Hsum.
  - vm_compute. reflexivity.
Defined.

Section HoursAfterCommit.

Lemma slots_with_splice (k p : DutyStatus) (a b : nat) (v : jsval) (l : list jsval) :
  (a <= b <= length l)%nat ->
  Forall (fun x => status_of x = Some p) (take (b - a) (drop a l)) ->
  (slots_with k (splice a b v l) + (if bool_decide (p = k) then b - a else 0))%nat
    = (slots_with k l + (if bool_decide (status_of v = Some k) then b - a else 0))%nat.
Proof.
  intros Hab Hmid.
  assert (Hl : l = take a l ++ take (b - a) (drop a l) ++ drop b l).
  { rewrite <- (take_drop a l) at 1. f_equal.
    rewrite <- (take_drop (b - a) (drop a l)) at 1. f_equal.
    rewrite drop_drop. f_equal. lia. }
  rewrite Hl at 2. unfold splice.
  rewrite !slots_with_app, slots_with_replicate.
  rewrite (slots_with_uniform k p _ Hmid), length_take, length_drop.
  destruct (bool_decide (p = k)), (bool_decide (status_of v = Some k)); lia.
Qed.

Lemma quarter_diff (a b : Z) :
  0 <= a <= b ->
  (quarter (Z.to_nat b - Z.to_nat a) == inject_Z (b - a) / 4)%Q.
Proof.
  intros H. unfold quarter.
  now replace (Z.of_nat (Z.to_nat b - Z.to_nat a)) with (b - a) by lia.
Qed.

End HoursAfterCommit.

(** C6, as the code has it.  For [0 <= a < b <= 96] and a status [d]: when
    every slot of [a, b) held one status [p] other than [d], committing
    [set([a,b), d)] raises the total of [d] by (b-a)/4 hours, lowers the total
    of [p] by (b-a)/4 hours, and leaves the other two totals as they were. *)
Theorem saveDrag_moves_hours (g : Grid) (a b : Z) (d p : DutyStatus) :
  SlotSequence (times g) ->
  range (drag g) = Some {| start := a; end_ := b |} ->
  duty (drag g) = Some (ordinal d) ->
  0 <= a < b ->
  b <= 96 ->
  (forall i : Z, a <= i < b -> status_of (array_get i (times g)) = Some p) ->
  p <> d ->
  let t' := times (snd (saveDrag g)) in
  (0 < inject_Z (b - a) / 4)%Q /\
  (hours d t' == hours d (times g) + inject_Z (b - a) / 4)%Q /\
  (hours p t' == hours p (times g) - inject_Z (b - a) / 4)%Q /\
  (forall k : DutyStatus, k <> d -> k <> p -> (hours k t' == hours k (times g))%Q).
Proof.
  intros [Hlen Hval] Hr Hd Hab Hb Hocc Hpd t'.
  assert (Hne : elems (times g) <> []) by (intros E; rewrite E in Hlen; discriminate).
  assert (Hel : elems t' = splice (Z.to_nat a) (Z.to_nat b) (JNum (ordinal d))
                          (elems (times g))).
  { subst t'. rewrite (saveDrag_range g _ Hr), Hd; cbn [snd times start end_].
    apply saveDrag_loop_splice; lia. }
  assert (Hval' : valid_slots (elems t')).
  { rewrite Hel. apply splice_valid; [| exact Hval].
    cbn [status_of]. rewrite status_of_ordinal_ordinal. now eexists. }
  assert (Hne' : elems t' <> []).
  { intros E. apply (f_equal length) in E. rewrite Hel, splice_length in E by lia.
    rewrite Hlen in E. discriminate. }
  assert (Hmid : Forall (fun x => status_of x = Some p)
                   (take (Z.to_nat b - Z.to_nat a) (drop (Z.to_nat a) (elems (times g))))).
  { apply Forall_lookup_2. intros j x Hj.
    apply lookup_take_Some in Hj as [Hj Hlt]. rewrite lookup_drop in Hj.
    specialize (Hocc (Z.of_nat (Z.to_nat a + j)) ltac:(lia)).
    unfold array_get in Hocc.
    destruct (Z.ltb_spec (Z.of_nat (Z.to_nat a + j)) 0); [lia |].
    rewrite Nat2Z.id, Hj in Hocc. exact Hocc. }
  assert (Hcount : forall k,
    (slots_with k (elems t')
       + (if bool_decide (p = k) then Z.to_nat b - Z.to_nat a else 0))%nat
    = (slots_with k (elems (times g))
       + (if bool_decide (d = k) then Z.to_nat b - Z.to_nat a else 0))%nat).
  { intros k. rewrite Hel, (slots_with_splice k p) by (lia || exact Hmid).
    cbn [status_of]. rewrite status_of_ordinal_ordinal.
    destruct (decide (d = k)) as [-> | Hdk].
    - now rewrite !bool_decide_eq_true_2.
    - rewrite !(bool_decide_eq_false_2 (_ = _)); [reflexivity | exact Hdk |].
      intros [= E]. now apply Hdk. }
  split; [| split; [| split]].
  - apply Qlt_shift_div_l; [reflexivity |]. rewrite Qmult_0_l.
    change 0%Q with (inject_Z 0). rewrite <- Zlt_Qlt. lia.
  - rewrite (hours_quarter t' d Hne' Hval'), (hours_quarter _ d Hne Hval).
    rewrite <- (quarter_diff a b) by lia. rewrite quarter_plus.
    specialize (Hcount d).
    rewrite bool_decide_eq_false_2, bool_decide_eq_true_2 in Hcount by easy.
    now rewrite <- Hcount, Nat.add_0_r.
  - rewrite (hours_quarter t' p Hne' Hval'), (hours_quarter _ p Hne Hval).
    rewrite <- (quarter_diff a b) by lia.
    specialize (Hcount p).
    rewrite bool_decide_eq_true_2, (bool_decide_eq_false_2 (d = p)) in Hcount
      by (easy || congruence).
    rewrite Nat.add_0_r in Hcount. rewrite <- Hcount, <- quarter_plus. ring.
  - intros k Hkd Hkp.
    rewrite (hours_quarter t' k Hne' Hval'), (hours_quarter _ k Hne Hval).
    specialize (Hcount k).
    rewrite !bool_decide_eq_false_2 in Hcount by congruence.
    now rewrite !Nat.add_0_r in Hcount; rewrite Hcount.
Qed.

Lemma array_get_default (i : Z) : 0 <= i < 96 -> array_get i default_times = JNum 1.
Proof.
  intros Hi. unfold array_get, default_times; cbn [elems].
  destruct (Z.ltb_spec i 0); [lia |].
  rewrite lookup_replicate_2 by lia. reflexivity.
Qed.

(** Slots 10 to 19 of an all-off-duty grid dragged to driving: driving gains
    2.5 hours, off duty loses 2.5 hours. *)
Lemma saveDrag_moves_hours_witness :
  let g := run [pointer mousedown 100%float 250%float;
                pointer mousemove 200%float 250%float] fresh in
  (hours Driving (times (snd (saveDrag g))) == hours Driving (times g) + 10 / 4)%Q /\
  (hours OffDuty (times (snd (saveDrag g))) == hours OffDuty (times g) - 10 / 4)%Q.
Proof.
  cbv zeta.
  pose proof (saveDrag_moves_hours
                (run [pointer mousedown 100%float 250%float;
                      pointer mousemove 200%float 250%float] fresh)
                10 20 Driving OffDuty) as H.
  cbv zeta in H. destruct H as (_ & Hd & Hp & _).
  - slot_sequence.
  - vm_compute; reflexivity.
  - vm_compute; reflexivity.
  - lia.
  - lia.
  - intros i Hi.
    change (times _) with default_times.
    rewrite array_get_default by lia. reflexivity.
  - discriminate.
  - split; [exact Hd | exact Hp].
Defined.

(** C6 as stated fails in two ways.  Dragging slots 0 to 3 of an all-off-duty
    grid to off duty changes no total at all.  And after slots 10 to 19 have
    been set to driving, dragging slots 5 to 14 to on duty changes three
    totals: on duty gains 2.5 hours, off duty and driving lose 1.25 each. *)
Lemma saveDrag_hours_not_two_entries :
  let g := run [pointer mousedown 5%float 50%float;
                pointer mousemove 45%float 50%float] fresh in
  let h := run [pointer mousedown 100%float 250%float;
                pointer mousemove 200%float 250%float;
                pointer mouseup 200%float 250%float;
                pointer mousedown 50%float 350%float;
                pointer mousemove 150%float 350%float] fresh in
  (drag g = {| range := Some {| start := 0; end_ := 4 |}; duty := Some 1 |} /\
   (hours OffDuty (times (snd (saveDrag g))) == hours OffDuty (times g))%Q /\
   ~ (hours OffDuty (times (snd (saveDrag g)))
      == hours OffDuty (times g) + inject_Z (4 - 0) / 4)%Q) /\
  (drag h = {| range := Some {| start := 5; end_ := 15 |}; duty := Some 4 |} /\
   SlotSequence (times h) /\
   (hours OnDuty (times (snd (saveDrag h))) == hours OnDuty (times h) + 10 / 4)%Q /\
   (hours OffDuty (times (snd (saveDrag h))) == hours OffDuty (times h) - 5 / 4)%Q /\
   (hours Driving (times (snd (saveDrag h))) == hours Driving (times h) - 5 / 4)%Q).
Proof.
  cbv zeta. split.
  - split; [vm_compute; reflexivity |].
    split; [vm_compute; reflexivity |].
    vm_compute. discriminate.
  - split; [vm_compute; reflexivity |].
    split; [slot_sequence |].
    repeat split; vm_compute; reflexivity.
Qed.

(** ** The quotient by four is exact *)

(** For every count a 96-slot array can give, the binary64 quotient
    [n / 4] is the rational n/4: keeping the totals in [Q] loses nothing. *)
Lemma quarter_exact :
  forallb (fun n : nat =>
             Qeq_bool (Num.QofFloat (PrimFloat.of_uint63 (Uint63.of_nat n) / 4)%float)
                      (quarter n))
          (seq 0 97) = true.
Proof. vm_compute. reflexivity. Qed.

(** A read-only grid does not call back even if one of its handlers is
    called directly. *)
Lemma handler_readOnly_silent (evt : eventName) (e : MouseEvent) (g : Grid) :
  readOnly g = true ->
  callBack_calls (snd (handler evt e g)) = callBack_calls g.
Proof.
  intros Hro. destruct evt; cbn [handler].
  - destruct (mouseDown g) eqn:Hmd.
    + now rewrite mousemoveHandler_down.
    + now rewrite mousemoveHandler_up.
  - reflexivity.
  - destruct (range (drag g)) as [r |] eqn:Hr.
    + now rewrite (mouseupHandler_range _ _ Hr), Hro.
    + now rewrite (mouseupHandler_no_range _ Hr).
  - destruct (range (drag g)) as [r |] eqn:Hr.
    + destruct (end_ r >? 93) eqn:He.
      * now rewrite (mouseoutHandler_commit _ _ Hr He), Hro.
      * rewrite mouseoutHandler_idle; [reflexivity | now rewrite Hr].
    + rewrite mouseoutHandler_idle; [reflexivity | now rewrite Hr].
Qed.


(** * Further properties of the code *)

(** ** Array writes *)

Section ArrayWrites.

(** Reading past the end of the elements gives [undefined]. *)
Lemma array_get_beyond (j : Z) (t : jsArray) :
  Z.of_nat (length (elems t)) <= j -> array_get j t = JUndef.
Proof.
  intros Hj. unfold array_get.
  destruct (Z.ltb_spec j 0); [lia |].
  rewrite lookup_ge_None_2 by lia. reflexivity.
Qed.

(** [a[i] = v] followed by [a[j]]. *)
Lemma array_get_put (i j : Z) (v : jsval) (t : jsArray) :
  array_get j (array_put i v t) = if j =? i then v else array_get j t.
Proof.
  unfold array_put.
  destruct (Z.ltb_spec i 0) as [Hneg | Hpos].
  - unfold array_get; cbn [elems props].
    destruct (Z.ltb_spec j 0) as [Hj | Hj].
    + destruct (Z.eqb_spec j i) as [-> | Hne].
      * now rewrite lookup_insert_eq.
      * now rewrite lookup_insert_ne by congruence.
    + destruct (Z.eqb_spec j i); [lia | reflexivity].
  - destruct (Z.ltb_spec i (Z.of_nat (length (elems t)))) as [Hin | Hout].
    + unfold array_get; cbn [elems props].
      destruct (Z.ltb_spec j 0) as [Hj | Hj].
      * destruct (Z.eqb_spec j i); [lia | reflexivity].
      * destruct (Z.eqb_spec j i) as [-> | Hne].
        -- now rewrite list_lookup_insert_eq by lia.
        -- now rewrite list_lookup_insert_ne by lia.
    + unfold array_get at 1; cbn [elems props].
      destruct (Z.ltb_spec j 0) as [Hj | Hj].
      * destruct (Z.eqb_spec j i); [lia |].
        unfold array_get. destruct (Z.ltb_spec j 0); [reflexivity | lia].
      * destruct (Z.lt_ge_cases j (Z.of_nat (length (elems t)))) as [Hlt | Hge].
        -- rewrite lookup_app_l by lia.
           destruct (Z.eqb_spec j i); [lia |].
           unfold array_get. destruct (Z.ltb_spec j 0); [lia | reflexivity].
        -- rewrite lookup_app_r by lia.
           rewrite (array_get_beyond j t Hge).
           destruct (Z.eqb_spec j i) as [-> | Hne].
           ++ rewrite lookup_app_r by (rewrite length_replicate; lia).
              rewrite length_replicate, Nat.sub_diag. reflexivity.
           ++ destruct (Z.lt_ge_cases j i) as [Hji | Hji].
              ** rewrite lookup_app_l by (rewrite length_replicate; lia).
                 rewrite lookup_replicate_2 by lia. reflexivity.
              ** rewrite lookup_app_r by (rewrite length_replicate; lia).
                 rewrite length_replicate.
                 rewrite lookup_ge_None_2 by (cbn [length]; lia). reflexivity.
Qed.

(** A write never shortens the array: a negative index leaves the length,
    any other index makes it at least [i + 1]. *)
Lemma array_put_length (i : Z) (v : jsval) (t : jsArray) :
  Z.of_nat (length (elems (array_put i v t)))
    = if i <? 0 then Z.of_nat (length (elems t))
      else Z.max (Z.of_nat (length (elems t))) (i + 1).
Proof.
  unfold array_put.
  destruct (Z.ltb_spec i 0) as [Hneg | Hpos]; [reflexivity |].
  destruct (Z.ltb_spec i (Z.of_nat (length (elems t)))) as [Hin | Hout]; cbn [elems].
  - rewrite length_insert. lia.
  - rewrite !length_app, length_replicate; cbn [length]. lia.
Qed.

(** The loop of [saveDrag] writes [v] at the indices [i .. i+n-1] and
    nowhere else. *)
Lemma saveDrag_loop_get (v : jsval) (n : nat) :
  forall (i j : Z) (t : jsArray),
    array_get j (saveDrag_loop n i v t)
      = if ((i <=? j) && (j <? i + Z.of_nat n))%bool then v else array_get j t.
Proof.
  induction n as [| n IH]; intros i j t; cbn [saveDrag_loop].
  - destruct (Z.leb_spec i j), (Z.ltb_spec j (i + Z.of_nat 0)); try reflexivity; lia.
  - rewrite IH, array_get_put.
    destruct (Z.leb_spec (i + 1) j), (Z.ltb_spec j (i + 1 + Z.of_nat n)),
      (Z.leb_spec i j), (Z.ltb_spec j (i + Z.of_nat (S n))), (Z.eqb_spec j i);
      cbn [andb]; try reflexivity; lia.
Qed.

Lemma saveDrag_loop_length (v : jsval) (n : nat) :
  forall (i : Z) (t : jsArray),
    Z.of_nat (length (elems (saveDrag_loop n i v t)))
      = if (0 <? Z.of_nat n)%Z
        then Z.max (Z.of_nat (length (elems t))) (i + Z.of_nat n)
        else Z.of_nat (length (elems t)).
Proof.
  induction n as [| n IH]; intros i t; cbn [saveDrag_loop]; [reflexivity |].
  rewrite IH, array_put_length.
  destruct (Z.ltb_spec 0 (Z.of_nat n)), (Z.ltb_spec 0 (Z.of_nat (S n))),
    (Z.ltb_spec i 0); lia.
Qed.

End ArrayWrites.

(** X2.  [saveDrag] on any drag range, clamped or not.  It completes and
    resets the drag state; afterwards every integer index in
    [start, end) reads the dragged duty and every other index reads as
    before; the array never shrinks: a forward range makes its length the
    larger of the old length and [end], any other range leaves it. *)
Theorem saveDrag_unclamped (g : Grid) (r : dragRange) (d : Z) :
  range (drag g) = Some r ->
  duty (drag g) = Some d ->
  fst (saveDrag g) = Normal tt /\
  drag (snd (saveDrag g)) = no_drag /\
  (forall j : Z,
     array_get j (times (snd (saveDrag g)))
       = if ((start r <=? j) && (j <? end_ r))%bool then JNum d
         else array_get j (times g)) /\
  Z.of_nat (length (elems (times (snd (saveDrag g)))))
    = if start r <? end_ r
      then Z.max (Z.of_nat (length (elems (times g)))) (end_ r)
      else Z.of_nat (length (elems (times g))).
Proof.
  intros Hr Hd. rewrite (saveDrag_range g r Hr), Hd; cbn [fst snd times drag].
  split; [reflexivity |]. split; [reflexivity |]. split.
  - intros j. rewrite saveDrag_loop_get.
    destruct (Z.leb_spec (start r) j),
      (Z.ltb_spec j (start r + Z.of_nat (Z.to_nat (end_ r - start r)))),
      (Z.ltb_spec j (end_ r)); cbn [andb]; try reflexivity; lia.
  - rewrite saveDrag_loop_length.
    destruct (Z.ltb_spec 0 (Z.of_nat (Z.to_nat (end_ r - start r)))),
      (Z.ltb_spec (start r) (end_ r)); lia.
Qed.

(** A drag from slot 95 to slot 98 on a fresh grid: slots 95 to 97 read
    driving, slot 94 is as before, and the array has 98 slots. *)
Lemma saveDrag_unclamped_witness :
  let g := run [pointer mousedown 950%float 250%float;
                pointer mousemove 985%float 250%float] fresh in
  array_get 97 (times (snd (saveDrag g))) = JNum 3 /\
  array_get 94 (times (snd (saveDrag g))) = array_get 94 (times g) /\
  Z.of_nat (length (elems (times (snd (saveDrag g))))) = 98.
Proof.
  cbv zeta.
  pose proof (saveDrag_unclamped
                (run [pointer mousedown 950%float 250%float;
                      pointer mousemove 985%float 250%float] fresh)
                {| start := 95; end_ := 98 |} 3) as H.
  destruct H as (_ & _ & Hget & Hlen).
  - vm_compute; reflexivity.
  - vm_compute; reflexivity.
  - split; [| split].
    + now rewrite Hget.
    + now rewrite Hget.
    + rewrite Hlen. vm_compute. reflexivity.
Defined.

(** ** Decoding without validation *)

Section Unvalidated.

Lemma count_char_total (s : string) :
  (count_char (digit OffDuty) s + count_char (digit SleeperBerth) s
   + count_char (digit Driving) s + count_char (digit OnDuty) s
   + count_other s)%nat = String.length s.
Proof.
  induction s as [| c s IH]; [reflexivity |].
  cbn [count_char count_other String.length]. rewrite <- IH.
  unfold status_of_digit; cbn [digit].
  rewrite !(Ascii.eqb_sym _ c).
  destruct (Ascii.eqb_spec c "1") as [-> | _]; [cbn; lia |].
  destruct (Ascii.eqb_spec c "2") as [-> | _]; [cbn; lia |].
  destruct (Ascii.eqb_spec c "3") as [-> | _]; [cbn; lia |].
  destruct (Ascii.eqb_spec c "4") as [-> | _]; [cbn; lia |].
  lia.
Qed.

Lemma toString_split_chars (s : string) : toString (split_chars s) = s.
Proof.
  unfold toString, split_chars. rewrite join_chars.
  apply string_of_list_ascii_of_string.
Qed.

Lemma hours_split_chars (s : string) (k : DutyStatus) :
  s <> EmptyString ->
  (hours k (split_chars s) == quarter (count_char (digit k) s))%Q.
Proof.
  intros Hne.
  assert (Hel : elems (split_chars s) <> [])
    by (destruct s; [contradiction | discriminate]).
  rewrite (getHourTotals_entries _ k Hel), toString_split_chars.
  rewrite <- match_from_char.
  unfold match_g, quarter. rewrite string_of_ordinal.
  destruct (match_from _ 0 _); reflexivity.
Qed.

End Unvalidated.

Lemma constructTimesArray_length (o : option string) :
  length (elems (constructTimesArray o)) = 96%nat.
Proof.
  destruct (Nat.eq_dec (String.length (default EmptyString o)) 96%nat) as [E | E].
  - destruct o as [s |]; [| discriminate E]. cbn [default] in E.
    rewrite (constructTimesArray_96 s E). unfold split_chars; cbn [elems].
    now rewrite length_fmap, length_list_ascii_of_string.
  - now rewrite (constructTimesArray_other o E).
Qed.

Lemma grid_length (c : node) (params : option params_t) :
  length (elems (times (grid c params))) = 96%nat.
Proof. rewrite grid_times. apply constructTimesArray_length. Qed.

(** X3.  [constructTimesArray] returns 96 slots for every argument, and so
    does the constructor for every [params]: a string of 96 characters is
    taken as it is, character by character and without looking at the
    characters; anything else gives the default. *)
Theorem constructTimesArray_96_slots (str : option string) :
  length (elems (constructTimesArray str)) = 96%nat /\
  (forall s : string,
     str = Some s -> String.length s = 96%nat ->
     elems (constructTimesArray str) = JChr <$> list_ascii_of_string s) /\
  (forall (c : node) (params : option params_t),
     length (elems (times (grid c params))) = 96%nat).
Proof.
  split; [apply constructTimesArray_length |]. split.
  - intros s -> Hs. now rewrite (constructTimesArray_96 s Hs).
  - apply grid_length.
Qed.

(** X4.  The totals of a 96-character string that was never validated: each
    total is the number of occurrences of its digit over four, a character
    other than 1 to 4 counts for no status, and the four totals fall short of
    24 hours by a quarter hour per such character. *)
Theorem getHourTotals_unvalidated (s : string) :
  String.length s = 96%nat ->
  let t := constructTimesArray (Some s) in
  (forall k : DutyStatus, (hours k t == quarter (count_char (digit k) s))%Q) /\
  (hours OffDuty t + hours SleeperBerth t + hours Driving t + hours OnDuty t
   + quarter (count_other s) == 24)%Q.
Proof.
  intros Hs t. subst t. rewrite (constructTimesArray_96 s Hs).
  assert (Hne : s <> EmptyString) by (intros ->; discriminate Hs).
  split; [intros k; now apply hours_split_chars |].
  rewrite !(hours_split_chars s _ Hne), !quarter_plus.
  now rewrite count_char_total, Hs.
Qed.

Lemma getHourTotals_unvalidated_witness :
  let s := string_of_list_ascii (replicate 95 "3"%char ++ ["x"%char]) in
  (hours Driving (constructTimesArray (Some s)) == 95 # 4)%Q /\
  (hours OffDuty (constructTimesArray (Some s))
   + hours SleeperBerth (constructTimesArray (Some s))
   + hours Driving (constructTimesArray (Some s))
   + hours OnDuty (constructTimesArray (Some s)) + quarter 1 == 24)%Q.
Proof.
  cbv zeta.
  pose proof (getHourTotals_unvalidated
                (string_of_list_ascii (replicate 95 "3"%char ++ ["x"%char]))
                eq_refl) as [Hk Hsum].
  split; [rewrite (Hk Driving); vm_compute; reflexivity | exact Hsum].
Defined.

(** ** Invariants of the handlers *)

(** The seven ways a handler can go, each with the state it leaves. *)
Ltac handler_cases evt e g :=
  destruct evt; cbn [handler];
  [ destruct (mouseDown g) eqn:HMD;
    [ rewrite (mousemoveHandler_down e g HMD)
    | rewrite (mousemoveHandler_up e g HMD) ]
  | rewrite (mousedownHandler_eq e g)
  | destruct (range (drag g)) as [rr |] eqn:HR;
    [ rewrite (mouseupHandler_range g rr HR)
    | rewrite (mouseupHandler_no_range g HR) ]
  | destruct (range (drag g)) as [rr |] eqn:HR;
    [ destruct (end_ rr >? 93) eqn:HE;
      [ rewrite (mouseoutHandler_commit g rr HR HE)
      | rewrite (mouseoutHandler_idle g) by (rewrite HR; exact HE) ]
    | rewrite (mouseoutHandler_idle g) by (rewrite HR; reflexivity) ] ];
  cbn [fst snd].

Section Invariants.

Lemma dispatch_cases (ev : event) (g : Grid) :
  dispatch ev g = handler (name ev) (mouse ev) g \/ dispatch ev g = (Normal tt, g).
Proof.
  unfold dispatch, bind, get.
  destruct (bool_decide (name ev ∈ observers g)); [now left | now right].
Qed.

(** What every handler keeps, and every placed event with it, holds after
    any sequence of delivered events. *)
Lemma run_invariant (P : Grid -> Prop) (Q : event -> Prop) :
  (forall (ev : event) (g : Grid),
     Q ev -> P g -> P (snd (handler (name ev) (mouse ev) g))) ->
  forall (evs : list event) (g : Grid), Forall Q evs -> P g -> P (run evs g).
Proof.
  intros Hstep evs. induction evs as [| ev evs IH]; intros g HQ HP; [exact HP |].
  apply Forall_cons in HQ as [Hev HQ].
  rewrite run_cons. apply IH; [exact HQ |].
  destruct (dispatch_cases ev g) as [-> | ->]; [now apply Hstep | exact HP].
Qed.

Lemma handler_frame (evt : eventName) (e : MouseEvent) (g : Grid) :
  world (snd (handler evt e g)) = world g /\
  readOnly (snd (handler evt e g)) = readOnly g /\
  observers (snd (handler evt e g)) = observers g.
Proof. handler_cases evt e g; easy. Qed.

Lemma handler_drag_consistent (evt : eventName) (e : MouseEvent) (g : Grid) :
  drag_consistent g -> drag_consistent (snd (handler evt e g)).
Proof.
  unfold drag_consistent. intros [Hdown Hduty].
  handler_cases evt e g; cbn [mouseDown drag range duty no_drag];
    rewrite ?HMD, ?HR; unfold is_Some in *;
    first
      [ exact (conj Hdown Hduty)
      | split;
        [ split; [intros _; eexists; reflexivity | reflexivity]
        | split; intros _; eexists; reflexivity ]
      | split;
        [ split; [discriminate | intros [x Hx]; discriminate Hx]
        | first [exact Hduty | split; intros [x Hx]; discriminate Hx] ] ].
Qed.

Lemma grid_initial (c : node) (params : option params_t) :
  mouseDown (grid c params) = false /\ drag (grid c params) = no_drag /\
  world (grid c params)
    = {| width := clientWidth c; height := clientHeight c |}.
Proof.
  destruct params as [[s [[] |]] |]; easy.
Qed.

Lemma grid_drag_consistent (c : node) (params : option params_t) :
  drag_consistent (grid c params).
Proof.
  destruct (grid_initial c params) as (Hmd & Hdr & _).
  unfold drag_consistent. rewrite Hmd, Hdr; cbn [range duty no_drag].
  split; split; try discriminate; intros [x Hx]; discriminate.
Qed.

Lemma handler_length (evt : eventName) (e : MouseEvent) (g : Grid) :
  (length (elems (times g)) <= length (elems (times (snd (handler evt e g)))))%nat.
Proof.
  handler_cases evt e g; cbn [times]; try lia.
  - pose proof (saveDrag_loop_length
                  (match duty (drag g) with Some d => JNum d | None => JUndef end)
                  (Z.to_nat (end_ rr - start rr)) (start rr) (times g)) as H.
    destruct (0 <? _) in H; lia.
  - pose proof (saveDrag_loop_length
                  (match duty (drag g) with Some d => JNum d | None => JUndef end)
                  (Z.to_nat (96 - start rr)) (start rr) (times g)) as H.
    destruct (0 <? _) in H; lia.
Qed.

End Invariants.

(** X5.  In every state an event sequence can bring a constructed grid to,
    the drag state is all there or all absent and is there exactly while
    [mouseDown] is set; [mouseupHandler] completes exactly when [mouseDown]
    is set, and whether it completes or throws it leaves the grid idle:
    [mouseDown] cleared and no drag state. *)
Theorem reachable_drag_consistent
    (c : node) (params : option params_t) (evs : list event) :
  let g := run evs (grid c params) in
  drag_consistent g /\
  (fst (mouseupHandler g) = Normal tt <-> mouseDown g = true) /\
  mouseDown (snd (mouseupHandler g)) = false /\
  drag (snd (mouseupHandler g)) = no_drag.
Proof.
  intros g.
  assert (HJ : drag_consistent g).
  { apply (run_invariant drag_consistent (fun _ => True)).
    - intros ev g0 _. apply handler_drag_consistent.
    - apply Forall_forall. easy.
    - apply grid_drag_consistent. }
  split; [exact HJ |]. destruct HJ as [H1 H2].
  destruct (range (drag g)) as [r |] eqn:Hr.
  - rewrite (mouseupHandler_range g r Hr); cbn [fst snd mouseDown drag].
    repeat split; try reflexivity. intros _. apply H1. now eexists.
  - rewrite (mouseupHandler_no_range g Hr); cbn [fst snd mouseDown drag].
    split; [| split; [reflexivity |]].
    + split; [discriminate |]. intros Hmd. apply H1 in Hmd as [x Hx]. discriminate.
    + destruct (drag g) as [rg [d |]]; cbn in *; subst.
      * destruct H2 as [_ H2]. destruct H2 as [x Hx]; [now eexists | discriminate].
      * reflexivity.
Qed.

(** X6.  The array never gets shorter: in every state an event sequence can
    bring a constructed grid to, [times] has at least 96 elements, so
    [getHourTotals] never returns [false]. *)
Theorem reachable_totals_available
    (c : node) (params : option params_t) (evs : list event) :
  let g := run evs (grid c params) in
  (96 <= length (elems (times g)))%nat /\ is_Some (getHourTotals (times g)).
Proof.
  intros g.
  assert (H : (96 <= length (elems (times g)))%nat).
  { apply (run_invariant (fun g => (96 <= length (elems (times g)))%nat)
             (fun _ => True)).
    - intros ev g0 _ H0. pose proof (handler_length (name ev) (mouse ev) g0). lia.
    - apply Forall_forall. easy.
    - rewrite grid_length. lia. }
  split; [exact H |].
  unfold getHourTotals.
  destruct (length (elems (times g))) as [| n]; [lia |]. now eexists.
Qed.

(** ** Events over the surface *)

Section InSurface.

Lemma Qfloor_below (q : Q) (n : Z) :
  (0 <= q)%Q -> (q < inject_Z n)%Q -> 0 <= Qfloor q < n.
Proof.
  intros H0 H1. split.
  - change 0 with (Qfloor 0). now apply Qfloor_resp_le.
  - rewrite Zlt_Qlt. eapply Qle_lt_trans; [apply Qfloor_le | exact H1].
Qed.

Lemma ToInt32_below (f : float) (n : Z) :
  n <= 2 ^ 31 ->
  (0 <= Num.QofFloat f)%Q -> (Num.QofFloat f < inject_Z n)%Q ->
  0 <= Num.ToInt32 f < n.
Proof.
  intros Hn H0 H1.
  rewrite ToInt32_floor; [now apply Qfloor_below | exact H0 |].
  eapply Qlt_le_trans; [exact H1 |]. now rewrite <- Zle_Qle.
Qed.

Lemma status_of_JNum_valid (d : Z) : 1 <= d <= 4 -> is_Some (status_of (JNum d)).
Proof.
  intros Hd. assert (d = 1 \/ d = 2 \/ d = 3 \/ d = 4) as [-> | [-> | [-> | ->]]] by lia;
    now eexists.
Qed.

(** Committing a drag that is in range keeps a slot sequence. *)
Lemma saveDrag_loop_SlotSequence (t : jsArray) (s e d : Z) :
  SlotSequence t -> e <= 96 -> 1 <= d <= 4 ->
  SlotSequence
    {| elems := elems (saveDrag_loop (Z.to_nat (e - s)) s (JNum d) t);
       props := props (saveDrag_loop (Z.to_nat (e - s)) s (JNum d) t) |}.
Proof.
  intros [Hlen Hval] He Hd. unfold SlotSequence; cbn [elems].
  destruct (Z.le_gt_cases e s) as [Hrev | Hfwd].
  - replace (Z.to_nat (e - s)) with 0%nat by lia. now rewrite saveDrag_loop_none.
  - rewrite saveDrag_loop_splice by lia. split.
    + rewrite splice_length by lia. exact Hlen.
    + apply splice_valid; [now apply status_of_JNum_valid | exact Hval].
Qed.

End InSurface.

Lemma in_surface_slot (w : world_t) (e : MouseEvent) :
  in_surface w e ->
  0 <= min (getMouseTime w e) <= 95 /\ 1 <= mduty (getMouseTime w e) <= 4.
Proof.
  intros (Hx0 & Hx1 & Hy0 & Hy1).
  unfold getMouseTime, pixelToSlot; cbn [min mduty].
  pose proof (ToInt32_below _ 96 ltac:(lia) Hx0 Hx1).
  pose proof (ToInt32_below _ 4 ltac:(lia) Hy0 Hy1).
  lia.
Qed.

(** X7.  A pointer over the surface maps to a slot from 0 to 95 and a duty
    from 1 to 4, and a mousedown there leaves a pending drag that is in
    range. *)
Theorem getMouseTime_in_surface (w : world_t) (e : MouseEvent) :
  in_surface w e ->
  (0 <= min (getMouseTime w e) <= 95 /\ 1 <= mduty (getMouseTime w e) <= 4) /\
  (forall g : Grid, world g = w -> drag_in_range (snd (mousedownHandler e g))).
Proof.
  intros He. pose proof (in_surface_slot w e He) as [Hm Hd].
  split; [now split |].
  intros g Hw. rewrite mousedownHandler_eq, Hw. unfold drag_in_range; cbn [snd drag range duty].
  intros r0 [= <-]. split; [exact (Z.le_trans _ 95 96 (proj2 Hm) ltac:(lia)) |].
  eexists; split; [reflexivity | exact Hd].
Qed.

Ltac over_surface :=
  repeat split; vm_compute; first [reflexivity | discriminate].

Lemma getMouseTime_in_surface_witness :
  let e := mouse (pointer mousedown 955%float 399%float) in
  in_surface (world fresh) e /\
  0 <= min (getMouseTime (world fresh) e) <= 95 /\
  1 <= mduty (getMouseTime (world fresh) e) <= 4.
Proof.
  cbv zeta.
  assert (H : in_surface (world fresh) (mouse (pointer mousedown 955%float 399%float)))
    by over_surface.
  split; [exact H |].
  exact (proj1 (getMouseTime_in_surface _ _ H)).
Defined.

Section SlotSequenceInvariant.

Variable w : world_t.

Let inv (g : Grid) : Prop :=
  world g = w /\ SlotSequence (times g) /\ drag_in_range g.

Lemma handler_in_surface (ev : event) (g : Grid) :
  well_placed w ev -> inv g -> inv (snd (handler (name ev) (mouse ev) g)).
Proof.
  unfold inv, well_placed, drag_in_range.
  destruct ev as [evt e]; cbn [name mouse].
  intros Hpl (Hw & Hseq & Hdr).
  handler_cases evt e g; cbn [world times drag range duty no_drag]; rewrite ?HR;
    (split; [exact Hw | split]);
    try exact Hseq; try exact Hdr; try (intros r0 [=]; fail).
  - rewrite Hw. destruct (in_surface_slot w e Hpl) as [Hm Hd].
    intros r0 [= <-]. split; [exact (Z.le_trans _ 95 96 (proj2 Hm) ltac:(lia)) |].
    eexists; split; [reflexivity | exact Hd].
  - rewrite Hw. destruct (in_surface_slot w e Hpl) as [Hm Hd].
    intros r0 [= <-]. split; [exact (Z.le_trans _ 95 96 (proj2 Hm) ltac:(lia)) |].
    eexists; split; [reflexivity | exact Hd].
  - destruct (Hdr rr eq_refl) as (He & d & -> & Hd).
    pose proof (saveDrag_loop_SlotSequence (times g) (start rr) (end_ rr) d
                  Hseq He Hd) as H.
    exact H.
  - destruct (Hdr rr eq_refl) as (_ & d & -> & Hd).
    pose proof (saveDrag_loop_SlotSequence (times g) (start rr) 96 d
                  Hseq ltac:(lia) Hd) as H.
    exact H.
Qed.

Lemma run_in_surface (evs : list event) (g : Grid) :
  Forall (well_placed w) evs -> inv g -> inv (run evs g).
Proof.
  apply (run_invariant inv (well_placed w)). intros ev g0. apply handler_in_surface.
Qed.

End SlotSequenceInvariant.

(** X8.  As long as every mousedown and mousemove is over the surface, the
    slot sequence is kept: from a grid whose [times] is a slot sequence and
    whose pending drag, if any, is in range, any sequence of events, with
    mouseup and mouseout anywhere, leaves [times] a slot sequence (96 slots,
    each a valid status) and the pending drag in range. *)
Theorem SlotSequence_kept_in_surface (g : Grid) (evs : list event) :
  SlotSequence (times g) ->
  drag_in_range g ->
  Forall (well_placed (world g)) evs ->
  SlotSequence (times (run evs g)) /\ drag_in_range (run evs g).
Proof.
  intros Hseq Hdr Hevs.
  destruct (run_in_surface (world g) evs g Hevs) as (_ & H1 & H2); [easy |].
  now split.
Qed.

Lemma SlotSequence_kept_in_surface_witness :
  let evs := [pointer mousedown 100%float 250%float;
              pointer mousemove 955%float 399%float;
              pointer mouseout 970%float 420%float;
              pointer mousedown 300%float 10%float;
              pointer mouseup 300%float 10%float] in
  SlotSequence (times (run evs fresh)).
Proof.
  cbv zeta.
  apply (SlotSequence_kept_in_surface fresh).
  - slot_sequence.
  - intros r Hr. vm_compute in Hr. discriminate Hr.
  - repeat (apply Forall_cons; split; [first [exact I | over_surface] |]).
    apply Forall_nil_2.
Defined.

(** ** Leaving the surface *)

(** X9.  [mouseoutHandler] on a grid with a pending drag.  If the drag ends
    at slot 93 or before, nothing at all changes and the drag stays pending.
    If it ends beyond slot 93, its end is moved to 96 and it is committed:
    every index from [start] to 95 reads the dragged duty, every other index
    reads as before, an array of 96 slots keeps its length, the grid is idle
    afterwards, and an editable grid calls back once. *)
Theorem mouseout_commits_to_96 (g : Grid) (r : dragRange) (d : Z) :
  range (drag g) = Some r ->
  duty (drag g) = Some d ->
  (end_ r <= 93 -> mouseoutHandler g = (Normal tt, g)) /\
  (93 < end_ r ->
   fst (mouseoutHandler g) = Normal tt /\
   drag (snd (mouseoutHandler g)) = no_drag /\
   mouseDown (snd (mouseoutHandler g)) = false /\
   callBack_calls (snd (mouseoutHandler g))
     = (if readOnly g then callBack_calls g else S (callBack_calls g)) /\
   (forall j : Z,
      array_get j (times (snd (mouseoutHandler g)))
        = if ((start r <=? j) && (j <? 96))%bool then JNum d
          else array_get j (times g)) /\
   (length (elems (times g)) = 96%nat ->
    length (elems (times (snd (mouseoutHandler g)))) = 96%nat)).
Proof.
  intros Hr Hd. split.
  - intros He. apply mouseoutHandler_idle. rewrite Hr.
    destruct (Z.gtb_spec (end_ r) 93); [lia | reflexivity].
  - intros He.
    assert (He' : (end_ r >? 93) = true)
      by (destruct (Z.gtb_spec (end_ r) 93); [reflexivity | lia]).
    rewrite (mouseoutHandler_commit g r Hr He'), Hd;
      cbn [fst snd drag mouseDown callBack_calls times].
    repeat (split; [reflexivity |]). split.
    + intros j. rewrite saveDrag_loop_get.
      destruct (Z.leb_spec (start r) j),
        (Z.ltb_spec j (start r + Z.of_nat (Z.to_nat (96 - start r)))),
        (Z.ltb_spec j 96); cbn [andb]; try reflexivity; lia.
    + intros Hlen.
      pose proof (saveDrag_loop_length (JNum d) (Z.to_nat (96 - start r))
                    (start r) (times g)) as H.
      destruct (Z.ltb_spec 0 (Z.of_nat (Z.to_nat (96 - start r)))); lia.
Qed.

(** A drag from slot 90 that has reached slot 94 when the pointer leaves:
    slots 90 to 95 are committed. *)
Lemma mouseout_commits_to_96_witness :
  let g := run [pointer mousedown 905%float 250%float;
                pointer mousemove 945%float 250%float] fresh in
  range (drag g) = Some {| start := 90; end_ := 94 |} /\
  array_get 89 (times (snd (mouseoutHandler g))) = JNum 1 /\
  array_get 95 (times (snd (mouseoutHandler g))) = JNum 3 /\
  length (elems (times (snd (mouseoutHandler g)))) = 96%nat.
Proof.
  cbv zeta.
  pose proof (mouseout_commits_to_96
                (run [pointer mousedown 905%float 250%float;
                      pointer mousemove 945%float 250%float] fresh)
                {| start := 90; end_ := 94 |} 3) as H.
  destruct H as [_ H].
  - vm_compute; reflexivity.
  - vm_compute; reflexivity.
  - destruct H as (_ & _ & _ & _ & Hget & Hlen); [cbn [end_]; lia |].
    split; [vm_compute; reflexivity |].
    split; [now rewrite Hget | split; [now rewrite Hget |]].
    apply Hlen. vm_compute; reflexivity.
Defined.

(** ** A whole gesture *)

Section Gesture.

Lemma dragging_from_editable (g : Grid) (s : Z) (m : mouseTime) :
  editable g -> editable (dragging_from g s m).
Proof. intros H. exact H. Qed.

Lemma dispatch_down_dragging (g : Grid) (e : MouseEvent) :
  editable g ->
  dispatch (pointer_down e) g
    = (Normal tt,
       dragging_from g
         match range (drag g) with
         | Some r => start r
         | None => min (getMouseTime (world g) e)
         end
         (getMouseTime (world g) e)).
Proof.
  intros Hed. rewrite (dispatch_editable _ _ Hed). reflexivity.
Qed.

Lemma dispatch_move_dragging (g : Grid) (s : Z) (m : mouseTime) (e : MouseEvent) :
  editable g ->
  dispatch (pointer_move e) (dragging_from g s m)
    = (Normal tt, dragging_from g s (getMouseTime (world g) e)).
Proof.
  intros Hed.
  rewrite (dispatch_editable _ _ (dragging_from_editable g s m Hed)).
  cbn [handler name mouse pointer_move].
  now rewrite mousemoveHandler_down.
Qed.

(** While dragging, the start stays and the end and the duty are those of
    the last position. *)
Lemma run_moves_dragging (g : Grid) (s : Z) (moves : list MouseEvent) :
  editable g ->
  forall d : MouseEvent,
    run (pointer_move <$> moves) (dragging_from g s (getMouseTime (world g) d))
      = dragging_from g s (getMouseTime (world g) (default d (last moves))).
Proof.
  intros Hed. induction moves as [| e moves IH]; intros d; [reflexivity |].
  rewrite fmap_cons, run_cons, (dispatch_move_dragging g s _ e Hed); cbn [snd].
  rewrite IH, last_cons. now destruct (last moves).
Qed.

End Gesture.

(** X10.  A gesture of button down, any number of moves and button up on an
    editable grid commits one range: it starts at the slot of the button
    down (or where a drag that was already pending started), it ends before
    the slot of the last position, and it carries the duty of the last
    position; the positions passed in between and the position of the button
    up play no part.  Every index in the range reads that duty afterwards,
    every other index reads as before, the grid is idle, and the callback has
    been called once more. *)
Theorem gesture_commits
    (g : Grid) (down up : MouseEvent) (moves : list MouseEvent) :
  editable g ->
  let s0 := match range (drag g) with
            | Some r => start r
            | None => min (getMouseTime (world g) down)
            end in
  let m1 := getMouseTime (world g) (default down (last moves)) in
  let dragging := pointer_down down :: (pointer_move <$> moves) in
  let g' := run (dragging ++ [pointer_up up]) g in
  run dragging g = dragging_from g s0 m1 /\
  (forall j : Z,
     array_get j (times g')
       = if ((s0 <=? j) && (j <? min m1))%bool then JNum (mduty m1)
         else array_get j (times g)) /\
  drag g' = no_drag /\
  mouseDown g' = false /\
  callBack_calls g' = S (callBack_calls g).
Proof.
  intros Hed s0 m1 dragging g'.
  assert (Hdrag : run dragging g = dragging_from g s0 m1).
  { subst dragging. rewrite run_cons, (dispatch_down_dragging g down Hed); cbn [snd].
    apply (run_moves_dragging g _ moves Hed down). }
  split; [exact Hdrag |].
  subst g'. rewrite run_app, Hdrag, run_cons; cbn [run deliver snd].
  rewrite (dispatch_editable _ _ (dragging_from_editable g s0 m1 Hed)).
  cbn [handler name mouse pointer_up].
  rewrite (mouseupHandler_range (dragging_from g s0 m1)
             {| start := s0; end_ := min m1 |} eq_refl).
  cbn [snd times drag mouseDown callBack_calls dragging_from readOnly duty start end_].
  destruct Hed as [-> _]. split; [| easy].
  intros j. rewrite saveDrag_loop_get.
  destruct (Z.leb_spec s0 j),
    (Z.ltb_spec j (s0 + Z.of_nat (Z.to_nat (min m1 - s0)))),
    (Z.ltb_spec j (min m1)); cbn [andb]; try reflexivity; lia.
Qed.

(** Down in slot 10 of the off-duty band, through the sleeper band, up after
    slot 20 of the driving band: slots 10 to 19 read driving. *)
Lemma gesture_commits_witness :
  let g' := run [pointer mousedown 100%float 50%float;
                 pointer mousemove 150%float 150%float;
                 pointer mousemove 200%float 250%float;
                 pointer mouseup 0%float 0%float] fresh in
  array_get 10 (times g') = JNum 3 /\ array_get 19 (times g') = JNum 3 /\
  array_get 20 (times g') = JNum 1 /\ callBack_calls g' = 2%nat.
Proof.
  cbv zeta.
  pose proof (gesture_commits fresh
                (mouse (pointer mousedown 100%float 50%float))
                (mouse (pointer mouseup 0%float 0%float))
                [mouse (pointer mousemove 150%float 150%float);
                 mouse (pointer mousemove 200%float 250%float)]) as H.
  cbv zeta in H. destruct H as (_ & Hget & _ & _ & Hcb); [split; reflexivity |].
  split; [| split; [| split]].
  - etransitivity; [apply Hget | vm_compute; reflexivity].
  - etransitivity; [apply Hget | vm_compute; reflexivity].
  - etransitivity; [apply Hget | vm_compute; reflexivity].
  - etransitivity; [apply Hcb | reflexivity].
Defined.

(** ** The painted line *)

Section Painting.

Lemma count_lineTo_app (a b : list Canvas.call) :
  count_lineTo (a ++ b) = (count_lineTo a + count_lineTo b)%nat.
Proof.
  induction a as [| c a IH]; [reflexivity |].
  destruct c; cbn [app count_lineTo]; rewrite IH; reflexivity.
Qed.

(** A valid slot is truthy and converts to the number of its status. *)
Lemma valid_ToBoolean (v : jsval) (d : DutyStatus) :
  status_of v = Some d -> Canvas.ToBoolean v = true.
Proof.
  destruct v as [| n | c]; cbn [status_of Canvas.ToBoolean];
    [discriminate | | reflexivity].
  intros ->%status_of_ordinal_Some. now destruct d.
Qed.

Lemma valid_ToNumber (v : jsval) (d : DutyStatus) :
  status_of v = Some d -> Canvas.ToNumber v = Canvas.float_of_Z (ordinal d).
Proof.
  destruct v as [| n | c]; cbn [status_of]; [discriminate | |].
  - now intros ->%status_of_ordinal_Some.
  - intros ->%status_of_digit_Some. now destruct d.
Qed.

(** Between valid slots [!=] tells whether the statuses differ, whichever
    way each is written. *)
Lemma valid_loose_neq (a b : jsval) (p d : DutyStatus) :
  status_of a = Some p -> status_of b = Some d ->
  Canvas.loose_neq a b = negb (bool_decide (p = d)).
Proof.
  destruct a as [| n | c], b as [| m | c']; cbn [status_of]; try discriminate.
  - intros ->%status_of_ordinal_Some ->%status_of_ordinal_Some. now destruct p, d.
  - intros ->%status_of_ordinal_Some ->%status_of_digit_Some. now destruct p, d.
  - intros ->%status_of_digit_Some ->%status_of_ordinal_Some. now destruct p, d.
  - intros ->%status_of_digit_Some ->%status_of_digit_Some. now destruct p, d.
Qed.

Lemma status_of_canon (v : jsval) : status_of (canon v) = status_of v.
Proof.
  unfold canon. destruct (status_of v) as [d |] eqn:E; [| exact E].
  cbn [status_of]. apply status_of_ordinal_ordinal.
Qed.

Lemma canon_status (v v' : jsval) :
  is_Some (status_of v) -> status_of v = status_of v' -> canon v = canon v'.
Proof.
  intros [d Hd] E. unfold canon. now rewrite <- E, Hd.
Qed.

Lemma canon_statuses (l l' : list jsval) :
  valid_slots l -> status_of <$> l = status_of <$> l' -> canon <$> l = canon <$> l'.
Proof.
  revert l'. induction l as [| v l IH]; intros [| v' l'] Hv Hs;
    try discriminate Hs; [reflexivity |].
  rewrite !fmap_cons in *. injection Hs as Hv' Hl'.
  apply Forall_cons in Hv as [Hv Hl].
  f_equal; [now apply canon_status | now apply IH].
Qed.

(** One slot segment per slot and one connector per change of status. *)
Lemma dutyLine_loop_count (hourInc dutyInc : float) (l : list jsval) :
  valid_slots l ->
  forall (i : Z) (lastDuty : option jsval),
    (forall v, lastDuty = Some v -> is_Some (status_of v)) ->
    count_lineTo (Canvas.dutyLine_loop hourInc dutyInc i lastDuty l)
      = (length l + changes (lastDuty ≫= status_of) l)%nat.
Proof.
  induction 1 as [| val l [d Hd] _ IH]; intros i lastDuty Hlast; [reflexivity |].
  cbn [Canvas.dutyLine_loop changes length].
  rewrite count_lineTo_app; cbn [count_lineTo].
  rewrite IH by (intros v [= <-]; now exists d).
  cbn [mbind option_bind]. rewrite Hd.
  destruct lastDuty as [last |]; cbn [mbind option_bind]; [| cbn; lia].
  destruct (Hlast last eq_refl) as [p Hp]. rewrite Hp.
  rewrite (valid_ToBoolean _ _ Hp), (valid_loose_neq _ _ _ _ Hp Hd).
  destruct (bool_decide (p = d)); cbn; lia.
Qed.

Lemma dragLine_loop_count (hourInc dutyInc : float) (duty : jsval) (n : nat) :
  forall i : Z,
    count_lineTo (Canvas.dragLine_loop hourInc dutyInc duty n i) = n.
Proof.
  induction n as [| n IH]; intros i; [reflexivity |].
  cbn [Canvas.dragLine_loop count_lineTo]. now rewrite IH.
Qed.

Lemma dutyLine_loop_no_style (hourInc dutyInc : float) (c : string) (l : list jsval) :
  forall (i : Z) (lastDuty : option jsval),
    ~ In (Canvas.set_strokeStyle c)
         (Canvas.dutyLine_loop hourInc dutyInc i lastDuty l).
Proof.
  induction l as [| val l IH]; intros i lastDuty; [easy |].
  cbn [Canvas.dutyLine_loop]. rewrite in_app_iff. intros [H | H].
  - destruct lastDuty as [last |]; [| easy].
    destruct (_ && _)%bool; cbn in H; intuition discriminate.
  - cbn in H. destruct H as [H | [H | H]]; try discriminate. now apply IH in H.
Qed.

(** Valid slots paint as the numbers of their statuses. *)
Lemma dutyLine_loop_canon (hourInc dutyInc : float) (l : list jsval) :
  valid_slots l ->
  forall (i : Z) (lastDuty : option jsval),
    (forall v, lastDuty = Some v -> is_Some (status_of v)) ->
    Canvas.dutyLine_loop hourInc dutyInc i lastDuty l
      = Canvas.dutyLine_loop hourInc dutyInc i (canon <$> lastDuty) (canon <$> l).
Proof.
  induction 1 as [| val l [d Hd] _ IH]; intros i lastDuty Hlast; [reflexivity |].
  rewrite fmap_cons. cbn [Canvas.dutyLine_loop].
  assert (Hcd : status_of (canon val) = Some d) by now rewrite status_of_canon.
  rewrite (valid_ToNumber _ _ Hd), (valid_ToNumber _ _ Hcd).
  rewrite (IH (i + 1) (Some val)) by (intros v [= <-]; now exists d).
  cbn [fmap option_fmap option_map].
  destruct lastDuty as [last |]; cbn [fmap option_fmap option_map]; [| reflexivity].
  destruct (Hlast last eq_refl) as [p Hp].
  assert (Hcp : status_of (canon last) = Some p) by now rewrite status_of_canon.
  rewrite (valid_ToBoolean _ _ Hp), (valid_ToBoolean _ _ Hcp).
  rewrite (valid_loose_neq _ _ _ _ Hp Hd), (valid_loose_neq _ _ _ _ Hcp Hcd).
  now rewrite (valid_ToNumber _ _ Hp), (valid_ToNumber _ _ Hcp).
Qed.

End Painting.

(** X11.  What [drawDutyStatusLine] paints for valid slots: one segment per
    slot, one connector wherever the status changes from a slot to the next
    (and none before the first slot), and one preview segment per slot of a
    pending drag, none for a reverse drag.  The red preview path is painted
    exactly when a drag is pending. *)
Theorem drawDutyStatusLine_segments (g : Grid) :
  valid_slots (elems (times g)) ->
  count_lineTo (Canvas.drawDutyStatusLine g)
    = (length (elems (times g)) + changes None (elems (times g))
       + pending_slots g)%nat /\
  (In (Canvas.set_strokeStyle "red") (Canvas.drawDutyStatusLine g)
   <-> is_Some (range (drag g))).
Proof.
  intros Hval. unfold Canvas.drawDutyStatusLine, pending_slots. split.
  - rewrite !count_lineTo_app.
    rewrite (dutyLine_loop_count _ _ _ Hval 0 None) by discriminate.
    cbn [mbind option_bind count_lineTo].
    destruct (range (drag g)) as [r |]; [| cbn [count_lineTo]; lia].
    rewrite !count_lineTo_app, dragLine_loop_count. cbn [count_lineTo]. lia.
  - rewrite !in_app_iff. split.
    + intros [H | [H | [H | H]]].
      * unfold Canvas.dutyColor in H. cbn in H.
        destruct (readOnly g); intuition discriminate.
      * now apply dutyLine_loop_no_style in H.
      * cbn in H. intuition discriminate.
      * destruct (range (drag g)); [now eexists | easy].
    + intros [r ->]. do 3 right. cbn. now right; left.
Qed.

(** A fresh grid with a pending drag over slots 5 and 6: 96 slot segments,
    no connector, 2 preview segments. *)
Lemma drawDutyStatusLine_segments_witness :
  let g := run [pointer mousedown 50%float 150%float;
                pointer mousemove 70%float 150%float] fresh in
  count_lineTo (Canvas.drawDutyStatusLine g) = 98%nat.
Proof.
  cbv zeta.
  etransitivity;
    [apply (drawDutyStatusLine_segments
              (run [pointer mousedown 50%float 150%float;
                    pointer mousemove 70%float 150%float] fresh))
    | vm_compute; reflexivity].
  apply (bool_decide_unpack _). vm_compute. exact I.
Defined.

(** X12.  The painting depends on the statuses of the slots, not on how
    they are written: two grids with the same surface, mode and drag state
    whose slots are valid and hold the same statuses paint the same calls
    with the same coordinates.  So a grid rebuilt from its own encoding
    paints as before. *)
Theorem drawDutyStatusLine_by_status (g g' : Grid) :
  world g = world g' ->
  readOnly g = readOnly g' ->
  drag g = drag g' ->
  valid_slots (elems (times g)) ->
  statuses (times g) = statuses (times g') ->
  Canvas.drawDutyStatusLine g = Canvas.drawDutyStatusLine g'.
Proof.
  intros Hw Hro Hdr Hval Hst.
  assert (Hval' : valid_slots (elems (times g'))).
  { apply valid_slots_statuses. unfold statuses in Hst. rewrite <- Hst.
    now apply valid_slots_statuses. }
  pose proof (canon_statuses _ _ Hval Hst) as Hcanon.
  unfold Canvas.drawDutyStatusLine, Canvas.dutyColor.
  rewrite <- Hw, <- Hro, <- Hdr.
  rewrite (dutyLine_loop_canon _ _ _ Hval 0 None) by discriminate.
  rewrite (dutyLine_loop_canon _ _ _ Hval' 0 None) by discriminate.
  now rewrite Hcanon.
Qed.

(** The fresh grid, whose slots are the number 1, and the grid built from
    its encoding, whose slots are the character '1', paint the same. *)
Lemma drawDutyStatusLine_by_status_witness :
  let g' := grid surface
              (Some {| p_gridStr := Some (toString (times fresh));
                       p_readOnly := None |}) in
  elems (times g') = replicate 96 (JChr "1") /\
  Canvas.drawDutyStatusLine fresh = Canvas.drawDutyStatusLine g'.
Proof.
  cbv zeta. split; [vm_compute; reflexivity |].
  apply drawDutyStatusLine_by_status; try reflexivity.
  apply (bool_decide_unpack _). vm_compute. exact I.
Defined.

(** ** More on encoding, totals and idle pointers *)

Section EncodingByStatus.

Lemma jsval_to_string_canon (v : jsval) :
  is_Some (status_of v) -> jsval_to_string (canon v) = jsval_to_string v.
Proof.
  intros [d Hd].
  rewrite (jsval_to_string_valid v d Hd).
  apply jsval_to_string_valid. now rewrite status_of_canon.
Qed.

Lemma join_canon (l : list jsval) (p p' : gmap Z jsval) :
  valid_slots l ->
  join {| elems := canon <$> l; props := p' |} = join {| elems := l; props := p |}.
Proof.
  unfold join; cbn [elems].
  induction 1 as [| v l Hv _ IH]; [reflexivity |].
  rewrite fmap_cons. cbn [fold_right]. now rewrite IH, jsval_to_string_canon.
Qed.

End EncodingByStatus.

(** X13.  Two slot sequences have the same encoding exactly when they hold
    the same status in every slot: [toString] forgets whether a slot is
    written as a number or as a digit character, and nothing else. *)
Theorem toString_injective (t t' : jsArray) :
  SlotSequence t -> SlotSequence t' ->
  (toString t = toString t' <-> statuses t = statuses t').
Proof.
  intros [_ Hv] [_ Hv']. destruct t as [l p], t' as [l' p']; cbn [elems] in *.
  unfold toString, statuses; cbn [elems]. split.
  - intros E.
    rewrite <- (join_valid_chars l p Hv), <- (join_valid_chars l' p' Hv').
    now rewrite E.
  - intros E.
    rewrite <- (join_canon l p p Hv), <- (join_canon l' p' p Hv').
    now rewrite (canon_statuses l l' Hv E).
Qed.

Lemma toString_injective_witness :
  toString default_times
    = toString (constructTimesArray (Some (toString default_times))) /\
  statuses default_times
    = statuses (constructTimesArray (Some (toString default_times))).
Proof.
  assert (H : SlotSequence (constructTimesArray (Some (toString default_times))))
    by slot_sequence.
  pose proof (toString_injective _ _ SlotSequence_default H) as [H1 _].
  assert (E : toString default_times
              = toString (constructTimesArray (Some (toString default_times))))
    by (vm_compute; reflexivity).
  split; [exact E | exact (H1 E)].
Defined.

(** X14.  A drag that lies entirely left of slot 0 (its end is at most 0)
    is committed without touching any element: the writes land on
    properties with negative names, and the elements, the encoding and the
    hour totals are as before. *)
Theorem saveDrag_left_of_surface (g : Grid) (r : dragRange) :
  range (drag g) = Some r ->
  end_ r <= 0 ->
  fst (saveDrag g) = Normal tt /\
  elems (times (snd (saveDrag g))) = elems (times g) /\
  toString (times (snd (saveDrag g))) = toString (times g) /\
  getHourTotals (times (snd (saveDrag g))) = getHourTotals (times g).
Proof.
  intros Hr He. rewrite (saveDrag_range g r Hr); cbn [fst snd times].
  assert (Hel : elems (saveDrag_loop (Z.to_nat (end_ r - start r)) (start r)
                         match duty (drag g) with
                         | Some d => JNum d
                         | None => JUndef
                         end (times g))
                = elems (times g)).
  { destruct (Z.le_gt_cases (end_ r) (start r)) as [Hrev | Hfwd];
      [now replace (Z.to_nat (end_ r - start r)) with 0%nat by lia |].
    rewrite saveDrag_loop_elems by lia.
    replace (Z.to_nat (start r)) with 0%nat by lia.
    replace (Z.to_nat (start r + Z.of_nat (Z.to_nat (end_ r - start r))))
      with 0%nat by lia.
    cbn [take drop replicate Nat.sub app]. reflexivity. }
  split; [reflexivity |]. split; [exact Hel |].
  unfold getHourTotals, toString, join. now rewrite Hel.
Qed.

(** A drag from slot -3 to slot -1, left of the surface. *)
Lemma saveDrag_left_of_surface_witness :
  let g := run [pointer mousedown (-35)%float 250%float;
                pointer mousemove (-15)%float 250%float] fresh in
  range (drag g) = Some {| start := -3; end_ := -1 |} /\
  array_get (-2) (times (snd (saveDrag g))) = JNum 3 /\
  toString (times (snd (saveDrag g))) = toString (times g).
Proof.
  cbv zeta. split; [vm_compute; reflexivity |].
  split; [vm_compute; reflexivity |].
  apply (saveDrag_left_of_surface _ {| start := -3; end_ := -1 |}).
  - vm_compute; reflexivity.
  - cbn [end_]. lia.
Defined.

(** X15.  While the button is not held, moving the pointer changes nothing
    at all in the grid, however often and wherever it moves, and every
    mousemove completes. *)
Theorem moves_without_button (g : Grid) (moves : list MouseEvent) :
  mouseDown g = false ->
  deliver (pointer_move <$> moves) g
    = (replicate (length moves) (Normal tt), g).
Proof.
  intros Hmd. induction moves as [| e moves IH]; [reflexivity |].
  rewrite fmap_cons. cbn [deliver length replicate].
  destruct (dispatch_cases (pointer_move e) g) as [-> | ->];
    cbn [handler name mouse pointer_move];
    rewrite ?(mousemoveHandler_up e g Hmd), IH; reflexivity.
Qed.

Lemma moves_without_button_witness :
  run (pointer_move <$> [mouse (pointer mousemove 100%float 250%float);
                         mouse (pointer mousemove 2000%float (-50)%float)])
      fresh = fresh.
Proof.
  unfold run.
  rewrite (moves_without_button fresh
             [mouse (pointer mousemove 100%float 250%float);
              mouse (pointer mousemove 2000%float (-50)%float)] eq_refl).
  reflexivity.
Defined.

(** X16.  A grid constructed without a usable string (none, or one whose
    length is not 96) reports 24 hours off duty and 0 hours for the other
    three statuses. *)
Theorem fresh_grid_totals (c : node) (params : option params_t) :
  String.length (default EmptyString (params ≫= p_gridStr)) <> 96%nat ->
  (hours OffDuty (times (grid c params)) == 24)%Q /\
  (hours SleeperBerth (times (grid c params)) == 0)%Q /\
  (hours Driving (times (grid c params)) == 0)%Q /\
  (hours OnDuty (times (grid c params)) == 0)%Q.
Proof.
  intros Hs. rewrite grid_times.
  assert (E : constructTimesArray (Some (default EmptyString (params ≫= p_gridStr)))
              = default_times).
  { apply constructTimesArray_other. exact Hs. }
  rewrite E. repeat split; vm_compute; reflexivity.
Qed.

Lemma fresh_grid_totals_witness :
  (hours OffDuty (times fresh) == 24)%Q /\ (hours Driving (times fresh) == 0)%Q.
Proof.
  pose proof (fresh_grid_totals surface None) as H.
  destruct H as (H1 & _ & H3 & _); [cbn; lia |].
  split; [exact H1 | exact H3].
Defined.
